(** * Binary File Viewer: extension host and custom editor provider

    A shallow embedding of [extension.ts] (the [activate] function, its
    command and file-event handlers, [configure] and [getParserPaths]) and
    of [editorprovider.ts] ([openCustomDocument] and the message handler
    installed by [resolveCustomEditor]), together with the properties the
    specification states about them.

    JavaScript values are modelled as the code uses them:
    - a [number] is an IEEE 754 binary64 value; every number the embedded
      code can produce is an integer, an infinity or NaN, so the finite ones
      are carried as the integer they denote and every arithmetic operation
      writes its rounding to 53 significant bits out;
    - a string is the sequence of its UTF-16 code units;
    - calls into the host (vscode, fs, console) and into [ParserSelect] are
      threaded through a state-and-exception monad that records every call.
*)

From Stdlib Require Import String Ascii ZArith NArith List Bool Lia.
From Stdlib.Strings Require Import Byte.
From Stdlib.Floats Require Import SpecFloat.
Import ListNotations.
Local Open Scope Z_scope.

(* ================================================================== *)
(** * Part I: the embedding                                           *)
(* ================================================================== *)

(** ** JavaScript numbers *)

Module JSNumber.

(** The values of type Number that integer arithmetic can reach.  [Num z]
    is the finite double whose value is the integer [z] (the sign of a zero
    is not observable by any operation used here). *)
Inductive number : Type :=
| Num (z : Z)
| Infinity (negative : bool)
| NaN.

(** [2^53 - 1], [Number.MAX_SAFE_INTEGER]. *)
Definition MAX_SAFE_INTEGER : Z := 9007199254740991.

(** Round a non-negative integer to the nearest integer with at most 53
    significant bits, ties to the even significand (the IEEE 754 default
    rounding, unbounded exponent). *)
Definition roundNearestEven (x : Z) : Z :=
  let e := Z.log2 x - 52 in
  if e <=? 0 then x
  else
    let q := x / 2 ^ e in
    let r := x mod 2 ^ e in
    let half := 2 ^ (e - 1) in
    let q' := if (r <? half) || ((r =? half) && Z.even q) then q else q + 1 in
    q' * 2 ^ e.

Definition round53 (z : Z) : Z := Z.sgn z * roundNearestEven (Z.abs z).

(** The Number nearest to the mathematical integer [z]: a rounded magnitude
    of [2^1024] or more overflows to an infinity. *)
Definition fromZ (z : Z) : number :=
  let r := round53 z in
  if 2 ^ 1024 <=? Z.abs r then Infinity (z <? 0) else Num r.

Definition add (x y : number) : number :=
  match x, y with
  | NaN, _ | _, NaN => NaN
  | Infinity s, Infinity t => if Bool.eqb s t then x else NaN
  | Infinity _, Num _ => x
  | Num _, Infinity _ => y
  | Num a, Num b => fromZ (a + b)
  end.

Definition neg (x : number) : number :=
  match x with
  | Num a => Num (- a)
  | Infinity s => Infinity (negb s)
  | NaN => NaN
  end.

Definition sub (x y : number) : number := add x (neg y).

Definition mul (x y : number) : number :=
  match x, y with
  | NaN, _ | _, NaN => NaN
  | Infinity s, Infinity t => Infinity (xorb s t)
  | Infinity s, Num b => if b =? 0 then NaN else Infinity (xorb s (b <? 0))
  | Num a, Infinity t => if a =? 0 then NaN else Infinity (xorb (a <? 0) t)
  | Num a, Num b => fromZ (a * b)
  end.

(** The Standard Library's executable IEEE 754 specification at the
    binary64 parameters, used to cross-check the operations above. *)
Definition binary64 (z : Z) : spec_float := binary_normalize 53 1024 z 0 false.

Definition ofBinary64 (f : spec_float) : number :=
  match f with
  | S754_zero _ => Num 0
  | S754_infinity s => Infinity s
  | S754_nan => NaN
  | S754_finite s m e =>
      let v := if 0 <=? e then Z.pos m * 2 ^ e else Z.pos m / 2 ^ (- e) in
      Num (if s then - v else v)
  end.

End JSNumber.

Import JSNumber.

(** ** JavaScript strings *)

Module JSString.

(** A string is the list of its UTF-16 code units. *)
Definition jsstring : Type := list N.

(** A literal: every character of the Rocq string becomes one code unit. *)
Definition js (s : string) : jsstring :=
  map N_of_ascii (list_ascii_of_string s).

Definition LF : N := 10.
Definition CR : N := 13.
Definition LS : N := 8232.
Definition PS : N := 8233.
Definition CHAR_DOT : N := 46.
Definition CHAR_FORWARD_SLASH : N := 47.
Definition CHAR_COLON : N := 58.
Definition CHAR_GT : N := 62.

(** [a === b] on strings. *)
Fixpoint jsstring_eqb (a b : jsstring) : bool :=
  match a, b with
  | [], [] => true
  | x :: a', y :: b' => (x =? y)%N && jsstring_eqb a' b'
  | _, _ => false
  end.

(** [s.split(sep)] for a one-character separator: never the empty array. *)
Fixpoint split (sep : N) (s : jsstring) : list jsstring :=
  match s with
  | [] => [[]]
  | c :: r =>
      if (c =? sep)%N then [] :: split sep r
      else match split sep r with
           | h :: t => (c :: h) :: t
           | [] => [[c]]
           end
  end.

(** [s.slice(1)]. *)
Definition slice1 (s : jsstring) : jsstring := skipn 1 s.

(** [s.slice(start, end)] for [0 <= start] and [0 <= end]. *)
Definition slice (s : jsstring) (start stop : Z) : jsstring :=
  firstn (Z.to_nat (stop - start)) (skipn (Z.to_nat start) s).

Fixpoint takeWhile (p : N -> bool) (s : jsstring) : jsstring :=
  match s with
  | c :: r => if p c then c :: takeWhile p r else []
  | [] => []
  end.

Fixpoint dropWhile (p : N -> bool) (s : jsstring) : jsstring :=
  match s with
  | c :: r => if p c then dropWhile p r else s
  | [] => []
  end.

Definition notLF (c : N) : bool := negb (c =? LF)%N.

(** The text up to the first line feed. *)
Definition firstLine (s : jsstring) : jsstring := takeWhile notLF s.

(** The text between the first and the second line feed, if there is a
    first one. *)
Definition secondLine (s : jsstring) : option jsstring :=
  match dropWhile notLF s with
  | [] => None
  | _ :: rest => Some (firstLine rest)
  end.

(** [x] occurs in [s] as a substring. *)
Definition Contains (x s : jsstring) : Prop :=
  exists before after, s = before ++ x ++ after.

End JSString.

Import JSString.

(** ** Regular expression [/.*>:(\d+)/] and [parseInt] *)

Module JSRegExp.

(** The characters [.] does not match. *)
Definition isLineTerminator (c : N) : bool :=
  ((c =? LF) || (c =? CR) || (c =? LS) || (c =? PS))%N.

(** [\d]. *)
Definition isDigit (c : N) : bool := ((48 <=? c) && (c <=? 57))%N.

(** [>:(\d+)] matched at the head of [s]; the result is the capture.  The
    digit run is greedy and nothing follows it in the pattern, so it is the
    longest one. *)
Definition matchTail (s : jsstring) : option jsstring :=
  match s with
  | a :: b :: d :: r =>
      if ((a =? CHAR_GT) && (b =? CHAR_COLON))%N && isDigit d
      then Some (d :: takeWhile isDigit r)
      else None
  | _ => None
  end.

(** [.*>:(\d+)] matched at the head of [s]: the star is greedy, so the
    matcher first tries to let it take one more character and falls back
    to ending it here. *)
Fixpoint matchDotStar (s : jsstring) : option jsstring :=
  match s with
  | c :: r =>
      if isLineTerminator c then matchTail s
      else match matchDotStar r with
           | Some m => Some m
           | None => matchTail s
           end
  | [] => matchTail []
  end.

(** [/.*>:(\d+)/.exec(s)], reduced to [match[1]]: the pattern is tried at
    every start position from the left; [None] is [null]. *)
Fixpoint regexExec (s : jsstring) : option jsstring :=
  match matchDotStar s with
  | Some m => Some m
  | None =>
      match s with
      | [] => None
      | _ :: r => regexExec r
      end
  end.

(** [exec] converts its argument to a string: [undefined] becomes
    ["undefined"]. *)
Definition toStringOrUndefined (o : option jsstring) : jsstring :=
  match o with
  | Some s => s
  | None => js "undefined"
  end.

(** White space and line terminators, as [parseInt] strips them. *)
Definition isWhiteSpace (c : N) : bool :=
  ((9 <=? c) && (c <=? 13) || (c =? 32) || (c =? 160) || (c =? 5760)
   || (8192 <=? c) && (c <=? 8202) || (c =? LS) || (c =? PS)
   || (c =? 8239) || (c =? 8287) || (c =? 12288) || (c =? 65279))%N.

(** The value of a digit in the given radix (10 or 16). *)
Definition digitValue (radix : Z) (c : N) : option Z :=
  if isDigit c then Some (Z.of_N c - 48)
  else if (radix =? 16) && ((97 <=? c) && (c <=? 102))%N then Some (Z.of_N c - 87)
  else if (radix =? 16) && ((65 <=? c) && (c <=? 70))%N then Some (Z.of_N c - 55)
  else None.

Definition isRadixDigit (radix : Z) (c : N) : bool :=
  match digitValue radix c with Some _ => true | None => false end.

Definition digitsValue (radix : Z) (ds : jsstring) : Z :=
  fold_left
    (fun acc c => radix * acc + match digitValue radix c with Some v => v | None => 0 end)
    ds 0.

(** The decimal value of a run of digits. *)
Definition decimalValue (ds : jsstring) : Z := digitsValue 10 ds.

(** [parseInt(s)] with no radix argument. *)
Definition parseInt (s : jsstring) : number :=
  let s1 := dropWhile isWhiteSpace s in
  let '(negative, s2) :=
    match s1 with
    | c :: r => if (c =? 45)%N then (true, r) else if (c =? 43)%N then (false, r) else (false, s1)
    | [] => (false, s1)
    end in
  let '(radix, s3) :=
    match s2 with
    | z :: x :: r =>
        if ((z =? 48) && ((x =? 120) || (x =? 88)))%N then (16, r) else (10, s2)
    | _ => (10, s2)
    end in
  let ds := takeWhile (isRadixDigit radix) s3 in
  match ds with
  | [] => NaN
  | _ => let v := fromZ (digitsValue radix ds) in if negative then neg v else v
  end.

(** A string matches [/.*>:(\d+)/]: somewhere it holds [>:] and a digit. *)
Definition MatchesPattern (s : jsstring) : Prop :=
  exists before d after,
    s = before ++ CHAR_GT :: CHAR_COLON :: d :: after /\ isDigit d = true.

(** A string holds a colon followed by a digit, whatever precedes it. *)
Definition HasColonDigits (s : jsstring) : Prop :=
  exists before d after, s = before ++ CHAR_COLON :: d :: after /\ isDigit d = true.

(** A run of decimal digits that cannot be extended to the right. *)
Definition DigitRun (digits after : jsstring) : Prop :=
  digits <> []
  /\ Forall (fun c => isDigit c = true) digits
  /\ match after with
     | [] => True
     | c :: _ => isDigit c = false
     end.

End JSRegExp.

Import JSRegExp.

(** ** Node's [path] module, POSIX flavour *)

Module NodePath.

(** [path.basename(path)]. *)
Record BaseState : Type := {
  b_start : Z;
  b_end : Z;
  b_matchedSlash : bool
}.

(** The loop [for (i = path.length - 1; i >= 0; --i)]; [n] is [i + 1]. *)
Fixpoint basenameLoop (path : jsstring) (n : nat) (st : BaseState) : BaseState :=
  match n with
  | O => st
  | S i =>
      if (nth i path 0 =? CHAR_FORWARD_SLASH)%N then
        if negb (b_matchedSlash st)
        then {| b_start := Z.of_nat i + 1; b_end := b_end st;
                b_matchedSlash := b_matchedSlash st |}
        else basenameLoop path i st
      else if b_end st =? -1 then
        basenameLoop path i
          {| b_start := b_start st; b_end := Z.of_nat i + 1; b_matchedSlash := false |}
      else basenameLoop path i st
  end.

Definition basename (path : jsstring) : jsstring :=
  let st := basenameLoop path (length path)
              {| b_start := 0; b_end := -1; b_matchedSlash := true |} in
  if b_end st =? -1 then [] else slice path (b_start st) (b_end st).

(** [path.extname(path)]. *)
Record ExtState : Type := {
  startDot : Z;
  startPart : Z;
  end_ : Z;
  matchedSlash : bool;
  preDotState : Z
}.

Definition extStep (i : nat) (code : N) (st : ExtState) : ExtState :=
  let st1 :=
    if end_ st =? -1
    then {| startDot := startDot st; startPart := startPart st;
            end_ := Z.of_nat i + 1; matchedSlash := false;
            preDotState := preDotState st |}
    else st in
  if (code =? CHAR_DOT)%N then
    if startDot st1 =? -1
    then {| startDot := Z.of_nat i; startPart := startPart st1; end_ := end_ st1;
            matchedSlash := matchedSlash st1; preDotState := preDotState st1 |}
    else if negb (preDotState st1 =? 1)
    then {| startDot := startDot st1; startPart := startPart st1; end_ := end_ st1;
            matchedSlash := matchedSlash st1; preDotState := 1 |}
    else st1
  else if negb (startDot st1 =? -1)
  then {| startDot := startDot st1; startPart := startPart st1; end_ := end_ st1;
          matchedSlash := matchedSlash st1; preDotState := -1 |}
  else st1.

(** The loop [for (i = path.length - 1; i >= 0; --i)]; [n] is [i + 1]. *)
Fixpoint extnameLoop (path : jsstring) (n : nat) (st : ExtState) : ExtState :=
  match n with
  | O => st
  | S i =>
      let code := nth i path 0%N in
      if (code =? CHAR_FORWARD_SLASH)%N then
        if negb (matchedSlash st)
        then {| startDot := startDot st; startPart := Z.of_nat i + 1; end_ := end_ st;
                matchedSlash := matchedSlash st; preDotState := preDotState st |}
        else extnameLoop path i st
      else extnameLoop path i (extStep i code st)
  end.

Definition extname (path : jsstring) : jsstring :=
  let st := extnameLoop path (length path)
              {| startDot := -1; startPart := 0; end_ := -1;
                 matchedSlash := true; preDotState := 0 |} in
  if (startDot st =? -1) || (end_ st =? -1) || (preDotState st =? 0)
     || ((preDotState st =? 1) && (startDot st =? end_ st - 1)
         && (startDot st =? startPart st + 1))
  then []
  else slice path (startDot st) (end_ st).

End NodePath.

(** What the scan of [extname] has established once the indices [n] and
    above are done. *)
Definition ExtInv (path : jsstring) (n : nat) (st : NodePath.ExtState) : Prop :=
  (NodePath.end_ st = -1 /\ NodePath.startDot st = -1)
  \/ (NodePath.startDot st = -1
      /\ Z.of_nat n <= NodePath.end_ st <= Z.of_nat (length path)
      /\ forall k : nat, (n <= k)%nat -> Z.of_nat k < NodePath.end_ st ->
                         nth k path 0%N <> CHAR_DOT)
  \/ (Z.of_nat n <= NodePath.startDot st
      /\ NodePath.startDot st < NodePath.end_ st <= Z.of_nat (length path)
      /\ nth (Z.to_nat (NodePath.startDot st)) path 0%N = CHAR_DOT
      /\ forall k : nat, NodePath.startDot st < Z.of_nat k < NodePath.end_ st ->
                         nth k path 0%N <> CHAR_DOT).

(** What holds of the state the scan ends in. *)
Definition ExtFinal (path : jsstring) (st : NodePath.ExtState) : Prop :=
  NodePath.startDot st = -1
  \/ (0 <= NodePath.startDot st
      /\ NodePath.startDot st < NodePath.end_ st <= Z.of_nat (length path)
      /\ nth (Z.to_nat (NodePath.startDot st)) path 0%N = CHAR_DOT
      /\ forall k : nat, NodePath.startDot st < Z.of_nat k < NodePath.end_ st ->
                         nth k path 0%N <> CHAR_DOT).

(** The two functions of Node's [path] module the code calls; which flavour
    ([path.posix] or [path.win32]) is in force depends on the platform. *)
Class PathModule : Type := {
  basename : jsstring -> jsstring;
  extname : jsstring -> jsstring
}.

Definition posixPath : PathModule :=
  {| basename := NodePath.basename; extname := NodePath.extname |}.

(** What Node documents of [path.extname]: the result is empty, or runs
    from the last [.] of the path's last portion to its end, so it starts
    with a dot and holds no other. *)
Definition ExtnameContract (P : PathModule) : Prop :=
  forall p, extname p = []
            \/ exists e, extname p = CHAR_DOT :: e /\ ~ In CHAR_DOT e.

(** ** Byte buffers *)

(** The numeric value of a byte, [0 .. 255]. *)
Definition byteValue (b : byte) : Z := Z.of_N (Byte.to_N b).

(** The byte whose value is [z mod 256]. *)
Definition byteOfZ (z : Z) : byte :=
  match Byte.of_N (Z.to_N (z mod 256)) with
  | Some b => b
  | None => x00
  end.

(** ** extension.ts, [activate]: the signed-decode accumulation (lines 38-48) *)

(** A generic rendering of the loop
    [for (i = 0; i < lastSize; i++) { value += factor * (255 - dataBuffer[lastOffset + i]); factor *= 256; }]
    over an arithmetic [T], so that it can be run both on [number] and on
    the Standard Library's binary64 floats. [elem] is the conversion of an
    array element ([None] is [undefined]) to [T]. *)
Section Accumulate.
Variable T : Type.
Variables (tadd tsub tmul : T -> T -> T).
Variable tconst : Z -> T.
Variable telem : option byte -> T.

Fixpoint accumulateLoop (dataBuffer : list byte) (lastOffset : nat)
  (remaining i : nat) (value factor : T) : T * T :=
  match remaining with
  | O => (value, factor)
  | S remaining' =>
      let value' :=
        tadd value
             (tmul factor (tsub (tconst 255) (telem (nth_error dataBuffer (lastOffset + i))))) in
      let factor' := tmul factor (tconst 256) in
      accumulateLoop dataBuffer lastOffset remaining' (S i) value' factor'
  end.

(** [let factor = 1; value = 0; for ...; value++;] *)
Definition accumulateWith (dataBuffer : list byte) (lastOffset lastSize : nat) : T :=
  let '(value, _) :=
    accumulateLoop dataBuffer lastOffset lastSize 0 (tconst 0) (tconst 1) in
  tadd value (tconst 1).

End Accumulate.

(** An array element as a Number: [undefined] converts to NaN. *)
Definition elemNumber (o : option byte) : number :=
  match o with
  | Some b => Num (byteValue b)
  | None => NaN
  end.

(** The accumulation as the code runs it, on JavaScript numbers. *)
Definition signedMagnitude (dataBuffer : list byte) (lastOffset lastSize : nat) : number :=
  accumulateWith number add sub mul Num elemNumber dataBuffer lastOffset lastSize.

(** The same loop on the Standard Library's binary64 floats. *)
Definition signedMagnitude64 (dataBuffer : list byte) (lastOffset lastSize : nat) : spec_float :=
  accumulateWith spec_float (SFadd 53 1024) (SFsub 53 1024) (SFmul 53 1024) binary64
    (fun o => match o with Some b => binary64 (byteValue b) | None => S754_nan end)
    dataBuffer lastOffset lastSize.

(** The constants of [activate]: [dataBuffer], [lastOffset], [lastSize]. *)
Definition activate_dataBuffer : list byte := [xfd; xfe; xff; xff; xff; xff; xff; xff].
Definition activate_lastOffset : nat := 0.
Definition activate_lastSize : nat := 8.

(** The value [activate] logs with [console.log(value)]. *)
Definition activate_value : number :=
  signedMagnitude activate_dataBuffer activate_lastOffset activate_lastSize.

(** The unsigned base-256 value of a little-endian byte sequence. *)
Fixpoint unsignedValue (bytes : list byte) : Z :=
  match bytes with
  | [] => 0
  | b :: rest => byteValue b + 256 * unsignedValue rest
  end.

(** The exact value of the sum the loop accumulates, before [value++]. *)
Fixpoint complementSum (bytes : list byte) : Z :=
  match bytes with
  | [] => 0
  | b :: rest => (255 - byteValue b) + 256 * complementSum rest
  end.

(** ** Numeric decode primitives *)

Module Primitives.

(** The value type of a decoded integer.  The spec calls it
    [PreciseInteger]; the code at hand has one numeric type, the
    JavaScript Number, and its signed accumulation ([activate],
    extension.ts lines 41-47) runs on it. *)
Definition PreciseInteger : Type := number.

Inductive DecodeError : Type := OutOfBounds.

Inductive Decoded : Type :=
| Value (v : PreciseInteger)
| Failed (e : DecodeError).

(** Modelled from the spec: the base-256 positional sum of section 4.1,
    lowest-order byte first, with its increasing power-of-256 factor.  It
    is the loop of [activate] without the complement,
    [value += factor * d; factor *= 256], and like that loop it runs on
    JavaScript numbers. *)
Fixpoint positionalSum (factor value : number) (digits : list number) : number :=
  match digits with
  | [] => value
  | d :: rest => positionalSum (mul factor (Num 256)) (add value (mul factor d)) rest
  end.

(** Modelled from the spec: [readInteger] of the numeric decode primitives
    is not among the sources at hand; its signed accumulation is, as the
    trial run in [activate].  Section 4.1: the read fails with
    [OutOfBounds] unless [byteOffset >= 0] and
    [byteOffset + byteWidth <= buffer.length]; the bytes are summed
    positionally in base 256 from the lowest-order byte, which comes first
    for little-endian and last for big-endian; when [signed] and the sign
    bit of the most significant byte is set, the magnitude is what the
    loop of [activate] accumulates over these bytes (every byte
    complemented, [255 - b], summed positionally, then [value++]), and the
    result is reported negative. *)
Definition readInteger (buffer : list byte) (byteOffset byteWidth : Z)
  (signed littleEndian : bool) : Decoded :=
  if (byteOffset <? 0) || (Z.of_nat (length buffer) <? byteOffset + byteWidth)
  then Failed OutOfBounds
  else
    let included := firstn (Z.to_nat byteWidth) (skipn (Z.to_nat byteOffset) buffer) in
    let ordered := if littleEndian then included else rev included in
    let signBit := Z.testbit (byteValue (last ordered x00)) 7 in
    if signed && signBit
    then Value (neg (signedMagnitude ordered 0 (length ordered)))
    else Value (positionalSum (Num 1) (Num 0) (map (fun b => Num (byteValue b)) ordered)).



End Primitives.

Import Primitives.

(** ** The host: vscode, fs, console and [ParserSelect] *)

(** [vscode.Uri]; the code reads [fsPath] only. *)
Record Uri : Type := { fsPath : jsstring }.

(** What [ParserSelect.selectParserFile] returns; the code reads
    [contents] and [filePath]. *)
Record ParserInfo : Type := { contents : jsstring; filePath : jsstring }.

(** [EditorDocument], with the two fields [openCustomDocument] assigns. *)
Record EditorDocument : Type := { uri : Uri; parser : ParserInfo }.

(** An element of [vscode.FileRenameEvent.files]. *)
Record RenamedFile : Type := { oldUri : Uri; newUri : Uri }.

(** A message posted by the webview. *)
Record Message : Type := { command : jsstring; text : jsstring }.

(** A thrown value. *)
Inductive exn : Type := Exn (message : jsstring).

Inductive outcome (A : Type) : Type :=
| Return (a : A)
| Throw (e : exn).
Arguments Return {A} a.
Arguments Throw {A} e.

(** What [console.log] is given. *)
Inductive LogValue : Type :=
| LogNumber (n : number)
| LogError (e : exn).

(** Every call that leaves the embedded code, in program order. *)
Inductive Event : Type :=
| ConsoleLog (v : LogValue)
| ShowErrorMessage (msg : jsstring)
| ExecuteCommand (cmd : jsstring) (target : Uri) (viewType : jsstring)
| PostMessage (cmd : jsstring) (parserSource : jsstring) (data : list byte)
| SelectParserFile (arg1 : jsstring) (arg2 : option jsstring)
| GetTestedParserFilePaths
| UpdateIfParserFile (paths : list Uri)
| AddDiagnosticsMessage (msg : jsstring) (path : jsstring) (line : number)
| ParserSelectInit (folders : list jsstring).

(** One entry of the file system, as [lstat] sees it. *)
Inductive FileEntry : Type :=
| RegularFile (data : list byte)
| Directory
| SymbolicLink (target : jsstring).

(** A snapshot of the file system: the entry at each path, if any. *)
Definition FileSystem : Type := jsstring -> option FileEntry.

(** [stat]: follows symbolic links, giving up after [hops] of them. *)
Fixpoint statFollow (fs : FileSystem) (hops : nat) (p : jsstring) : option FileEntry :=
  match fs p with
  | Some (SymbolicLink target) =>
      match hops with
      | O => None
      | S hops' => statFollow fs hops' target
      end
  | other => other
  end.

Definition MAX_SYMLINK_HOPS : nat := 40.

(** [p] leads to [final] through [n] symbolic links, the entry at [p]
    being the first of them when [n] is not 0. *)
Inductive LinkChain (fs : FileSystem) : jsstring -> nat -> jsstring -> Prop :=
| chain_end (p : jsstring) : LinkChain fs p 0 p
| chain_link (p target final : jsstring) (n : nat) :
    fs p = Some (SymbolicLink target) ->
    LinkChain fs target n final ->
    LinkChain fs p (S n) final.

(** The path resolves to an entry: what [fs.existsSync] reports. *)
Definition existsOnDisk (fs : FileSystem) (p : jsstring) : bool :=
  match statFollow fs MAX_SYMLINK_HOPS p with
  | Some _ => true
  | None => false
  end.

(** The entry at the path is itself a directory: what
    [fs.lstatSync(p).isDirectory()] reports when it returns. *)
Definition isDirectoryEntry (fs : FileSystem) (p : jsstring) : bool :=
  match fs p with
  | Some Directory => true
  | _ => false
  end.

(** A configured folder that exists on disk and is a directory. *)
Definition validFolder (fs : FileSystem) (p : jsstring) : bool :=
  existsOnDisk fs p && isDirectoryEntry fs p.

(** The error message [getParserPaths] shows for a folder it drops. *)
Definition folderErrorMessage (fs : FileSystem) (p : jsstring) : jsstring :=
  if existsOnDisk fs p
  then js "Settings: The path '" ++ p ++ js "' is not a directory."
  else js "Settings: The path '" ++ p ++ js "' does not exist.".

(** The class [ParserSelect] lives in [parserselect.ts], which is not part
    of the sources at hand: its static methods are parameters, each a
    transition of the class's static state that returns or throws. *)
Class ParserSelectModule : Type := {
  ParserSelectState : Type;
  ps_selectParserFile :
    jsstring -> option jsstring -> ParserSelectState ->
    outcome (option ParserInfo) * ParserSelectState;
  ps_getTestedParserFilePaths :
    ParserSelectState -> outcome (list jsstring) * ParserSelectState;
  ps_updateIfParserFile :
    list Uri -> ParserSelectState -> outcome unit * ParserSelectState;
  ps_addDiagnosticsMessage :
    jsstring -> jsstring -> number -> ParserSelectState ->
    outcome unit * ParserSelectState;
  ps_init :
    list jsstring -> ParserSelectState -> outcome unit * ParserSelectState
}.

(** A [ParserSelect] whose catalog matches no file; its state is the list
    of parser paths it reports as tested. *)
Definition emptyCatalog : ParserSelectModule := {|
  ParserSelectState := list jsstring;
  ps_selectParserFile := fun _ _ tested => (Return None, tested);
  ps_getTestedParserFilePaths := fun tested => (Return tested, tested);
  ps_updateIfParserFile := fun _ tested => (Return tt, tested);
  ps_addDiagnosticsMessage := fun _ _ _ tested => (Return tt, tested);
  ps_init := fun _ tested => (Return tt, tested)
|}.

Section Host.
Context {PSM : ParserSelectModule} {PM : PathModule}.

(** The state the handlers run in. *)
Record World : Type := {
  parserSelect : ParserSelectState;
  fileSystem : FileSystem;
  parserFolders : list jsstring;
  trace : list Event
}.

(** A computation: a state transition that returns or throws. *)
Definition M (A : Type) : Type := World -> outcome A * World.

Definition ret {A : Type} (a : A) : M A := fun w => (Return a, w).

Definition throw {A : Type} (e : exn) : M A := fun w => (Throw e, w).

Definition bind {A B : Type} (c : M A) (k : A -> M B) : M B :=
  fun w =>
    match c w with
    | (Return a, w') => k a w'
    | (Throw e, w') => (Throw e, w')
    end.

(** [try { c } catch (e) { handler e }]. *)
Definition tryCatch {A : Type} (c : M A) (handler : exn -> M A) : M A :=
  fun w =>
    match c w with
    | (Return a, w') => (Return a, w')
    | (Throw e, w') => handler e w'
    end.

Definition addEvents (evs : list Event) (w : World) : World :=
  {| parserSelect := parserSelect w; fileSystem := fileSystem w;
     parserFolders := parserFolders w; trace := trace w ++ evs |}.

Definition record (ev : Event) (w : World) : World := addEvents [ev] w.

(** A host call that returns nothing and does not throw. *)
Definition emit (ev : Event) : M unit := fun w => (Return tt, record ev w).

(** A call into [ParserSelect]: recorded, then run on its state. *)
Definition callParserSelect {A : Type} (ev : Event)
  (method : ParserSelectState -> outcome A * ParserSelectState) : M A :=
  fun w =>
    let w1 := record ev w in
    let '(r, st) := method (parserSelect w1) in
    (r, {| parserSelect := st; fileSystem := fileSystem w1;
           parserFolders := parserFolders w1; trace := trace w1 |}).

End Host.

Notation "x <- c ;; k" := (bind c (fun x => k))
  (at level 61, c at next level, right associativity).
Notation "c ;;; k" := (bind c (fun _ => k))
  (at level 61, right associativity).

Section Program.
Context {PSM : ParserSelectModule} {PM : PathModule}.

(** [for (const x of xs) body], with the variables the body assigns
    carried as [s]. *)
Fixpoint forOf {A S : Type} (xs : list A) (body : A -> S -> M S) (s : S) : M S :=
  match xs with
  | [] => ret s
  | x :: rest => s' <- body x s ;; forOf rest body s'
  end.

(** *** Host calls *)

Definition console_log (v : LogValue) : M unit := emit (ConsoleLog v).

Definition showErrorMessage (msg : jsstring) : M unit := emit (ShowErrorMessage msg).

Definition executeCommand (cmd : jsstring) (target : Uri) (viewType : jsstring) : M unit :=
  emit (ExecuteCommand cmd target viewType).

Definition postMessage (cmd parserSource : jsstring) (data : list byte) : M unit :=
  emit (PostMessage cmd parserSource data).

(** [fs.existsSync]: true when [stat] succeeds. *)
Definition existsSync (p : jsstring) : M bool :=
  fun w => (Return (existsOnDisk (fileSystem w) p), w).

(** [fs.lstatSync(p).isDirectory()]: the link itself is examined. *)
Definition lstatSync_isDirectory (p : jsstring) : M bool :=
  fun w =>
    match fileSystem w p with
    | Some Directory => (Return true, w)
    | Some _ => (Return false, w)
    | None => (Throw (Exn (js "ENOENT: no such file or directory, lstat")), w)
    end.

(** [fs.readFileSync]. *)
Definition readFileSync (p : jsstring) : M (list byte) :=
  fun w =>
    match statFollow (fileSystem w) MAX_SYMLINK_HOPS p with
    | Some (RegularFile data) => (Return data, w)
    | Some Directory =>
        (Throw (Exn (js "EISDIR: illegal operation on a directory, read")), w)
    | _ => (Throw (Exn (js "ENOENT: no such file or directory, open")), w)
    end.

(** [settings.get('parserFolders')]. *)
Definition getConfiguredParserFolders : M (list jsstring) :=
  fun w => (Return (parserFolders w), w).

Definition selectParserFile (arg1 : jsstring) (arg2 : option jsstring)
  : M (option ParserInfo) :=
  callParserSelect (SelectParserFile arg1 arg2) (ps_selectParserFile arg1 arg2).

Definition getTestedParserFilePaths : M (list jsstring) :=
  callParserSelect GetTestedParserFilePaths ps_getTestedParserFilePaths.

Definition updateIfParserFile (paths : list Uri) : M unit :=
  callParserSelect (UpdateIfParserFile paths) (ps_updateIfParserFile paths).

Definition addDiagnosticsMessage (msg path : jsstring) (line : number) : M unit :=
  callParserSelect (AddDiagnosticsMessage msg path line)
    (ps_addDiagnosticsMessage msg path line).

Definition parserSelectInit (folders : list jsstring) : M unit :=
  callParserSelect (ParserSelectInit folders) (ps_init folders).

(** *** extension.ts *)

(** [getParserPaths]: [correctFolders] is the loop-carried array. *)
Definition getParserPaths : M (list jsstring) :=
  folders <- getConfiguredParserFolders ;;
  forOf folders
    (fun folder correctFolders =>
       exists_ <- existsSync folder ;;
       if negb exists_ then
         showErrorMessage (js "Settings: The path '" ++ folder ++ js "' does not exist.") ;;;
         ret correctFolders
       else
         isDir <- lstatSync_isDirectory folder ;;
         if negb isDir then
           showErrorMessage
             (js "Settings: The path '" ++ folder ++ js "' is not a directory.") ;;;
           ret correctFolders
         else ret (correctFolders ++ [folder]))
    [].

(** The message of the [binary-file-viewer.open] command when no parser
    was selected. *)
Definition noParserMessage (filePath : jsstring) (parserPaths : list jsstring) : jsstring :=
  let msg :=
    js "Binary-File-Viewer: No parser available for '" ++ basename filePath
    ++ js "'." ++ [LF] in
  if (0 <? length parserPaths)%nat then
    fold_left (fun msg parserPath => msg ++ [LF] ++ parserPath) parserPaths
      (msg ++ js "Tried parser(s): ")
  else msg.

(** The handler of the command [binary-file-viewer.open]. *)
Definition openCommand (target : Uri) : M unit :=
  let filePath := fsPath target in
  selected <- selectParserFile filePath None ;;
  match selected with
  | None =>
      parserPaths <- getTestedParserFilePaths ;;
      showErrorMessage (noParserMessage filePath parserPaths)
  | Some _ =>
      executeCommand (js "vscode.openWith") target (js "binary-file-viewer.viewer")
  end.

(** [onDidSaveTextDocument], [onDidDeleteFiles], [onDidCreateFiles]. *)
Definition onDidSaveTextDocument (docUri : Uri) : M unit :=
  updateIfParserFile [docUri].

Definition onDidDeleteFiles (files : list Uri) : M unit :=
  updateIfParserFile files.

Definition onDidCreateFiles (files : list Uri) : M unit :=
  updateIfParserFile files.

(** The array [merged] that [onDidRenameFiles] builds. *)
Definition mergeRenamed (files : list RenamedFile) : list Uri :=
  fold_left (fun merged renamedFile => (merged ++ [newUri renamedFile]) ++ [oldUri renamedFile])
    files [].

Definition onDidRenameFiles (files : list RenamedFile) : M unit :=
  updateIfParserFile (mergeRenamed files).

(** [configure]: [event] is [None] when the argument is omitted, else the
    event's [affectsConfiguration]. *)
Definition configure (event : option (jsstring -> bool)) : M unit :=
  match event with
  | Some affectsConfiguration =>
      if affectsConfiguration (js "binary-file-viewer.parserFolders") then
        folders <- getParserPaths ;;
        parserSelectInit folders
      else ret tt
  | None => ret tt
  end.

(** [activate], without the registrations of providers and handlers. *)
Definition activate : M unit :=
  console_log (LogNumber activate_value) ;;;
  folders <- getParserPaths ;;
  parserSelectInit folders.

(** *** editorprovider.ts *)

(** The extension [openCustomDocument] hands to the parser selection. *)
Definition fileExtOf (filePath : jsstring) : jsstring :=
  let fileExt := extname filePath in
  if (1 <=? length fileExt)%nat then slice1 fileExt else fileExt.

(** [openCustomDocument]; [None] is [undefined]. *)
Definition openCustomDocument (target : Uri) : M (option EditorDocument) :=
  tryCatch
    (let filePath := fsPath target in
     let fileExt := fileExtOf filePath in
     selected <- selectParserFile fileExt (Some filePath) ;;
     match selected with
     | None => ret None
     | Some p => ret (Some {| uri := target; parser := p |})
     end)
    (fun e => console_log (LogError e) ;;; ret None).

(** The diagnostic line computed from the failure text: [0], or the
    captured number minus 4. *)
Definition diagnosticLine (stacks : list jsstring) : number :=
  match regexExec (toStringOrUndefined (nth_error stacks 1)) with
  | Some digits => sub (parseInt digits) (Num 4)
  | None => Num 0
  end.

(** The handler [resolveCustomEditor] installs with
    [onDidReceiveMessage]. *)
Definition onDidReceiveMessage (doc : EditorDocument) (message : Message) : M unit :=
  let parser_filePath := filePath (parser doc) in
  let filePath := fsPath (uri doc) in
  let parser := parser doc in
  if jsstring_eqb (command message) (js "ready") then
    data <- readFileSync filePath ;;
    postMessage (js "setData") (contents parser) data
  else if jsstring_eqb (command message) (js "customParserError") then
    let stacks := split LF (text message) in
    let line := diagnosticLine stacks in
    addDiagnosticsMessage (hd [] stacks) parser_filePath line
  else ret tt.

End Program.

(** ** Sample data *)

Definition sampleParser : ParserInfo :=
  {| contents := js "addStandardHeader();"; filePath := js "/parsers/wav.js" |}.

Definition sampleDocument : EditorDocument :=
  {| uri := {| fsPath := js "/data/music.wav" |}; parser := sampleParser |}.

Definition sampleFileSystem : FileSystem :=
  fun p =>
    if jsstring_eqb p (js "/parsers") then Some Directory
    else if jsstring_eqb p (js "/parsers/wav.js") then Some (RegularFile [])
    else if jsstring_eqb p (js "/link") then Some (SymbolicLink (js "/parsers"))
    else None.

Definition sampleWorld : @World emptyCatalog :=
  @Build_World emptyCatalog
    [js "/parsers/wav.js"; js "/parsers/bmp.js"]
    sampleFileSystem
    [js "/parsers"; js "/missing"; js "/parsers/wav.js"; js "/link"]
    [].

(** A file system where a link leads to a directory through another
    link, and one where it leads nowhere. *)
Definition chainFileSystem : FileSystem :=
  fun p =>
    if jsstring_eqb p (js "/parsers") then Some Directory
    else if jsstring_eqb p (js "/link") then Some (SymbolicLink (js "/parsers"))
    else if jsstring_eqb p (js "/link2") then Some (SymbolicLink (js "/link"))
    else if jsstring_eqb p (js "/dangling") then Some (SymbolicLink (js "/nowhere"))
    else None.

Definition chainWorld : @World emptyCatalog :=
  @Build_World emptyCatalog
    []
    chainFileSystem
    [js "/link2"; js "/dangling"; js "/parsers"]
    [].

(** A failure text as the webview posts it: the message, then the stack. *)
Definition sampleFailureText : jsstring :=
  js "ReferenceError: foo is not defined" ++ [LF]
  ++ js "    at eval (eval at scopeLessFunctionCall (main.js:1:1), <anonymous>:3:5)" ++ [LF]
  ++ js "    at scopeLessFunctionCall (main.js:20:9)".

(** ** Worlds that differ in the configuration only *)

Section Configuration.
Context {PSM : ParserSelectModule}.

(** The world after the setting [parserFolders] was changed to [folders]. *)
Definition withParserFolders (folders : list jsstring) (w : World) : World :=
  {| parserSelect := parserSelect w; fileSystem := fileSystem w;
     parserFolders := folders; trace := trace w |}.

End Configuration.

(** A [ParserSelect] with one parser, for [.wav] files, which it finds by
    the path or by the extension; it throws on the path [/data/broken].
    Its state is the list of parser paths it reports as tested. *)
Definition wavCatalog : ParserSelectModule := {|
  ParserSelectState := list jsstring;
  ps_selectParserFile := fun arg1 _ tested =>
    if jsstring_eqb arg1 (js "/data/music.wav") || jsstring_eqb arg1 (js "wav")
    then (Return (Some sampleParser), [])
    else if jsstring_eqb arg1 (js "/data/broken")
    then (Throw (Exn (js "EACCES: permission denied")), tested)
    else (Return None, [js "/parsers/wav.js"]);
  ps_getTestedParserFilePaths := fun tested => (Return tested, tested);
  ps_updateIfParserFile := fun _ tested => (Return tt, tested);
  ps_addDiagnosticsMessage := fun _ _ _ tested => (Return tt, tested);
  ps_init := fun _ _ => (Return tt, [])
|}.

Definition wavWorld : @World wavCatalog :=
  @Build_World wavCatalog [] sampleFileSystem [js "/parsers"; js "/link"] [].

(** ** hoverprovider.ts *)

Module HoverProvider.

(** [vscode.Position]. *)
Record Position : Type := { line : nat; character : nat }.

(** [vscode.TextDocument]: its URI, and [lineAt(position).text], which
    throws for a position outside the document. *)
Record TextDocument : Type := {
  uri : Uri;
  lineAt : Position -> outcome jsstring
}.

(** [FuncDoc] is declared in [functiondocs.ts], which is not part of the
    sources at hand; the code reads the arrays [func] and [return], the
    second of which may be missing. *)
Record FuncDoc : Type := {
  func : list jsstring;
  return_ : option (list jsstring)
}.

(** [vscode.MarkdownString]: its text and the flag given to the
    constructor. *)
Record MarkdownString : Type := {
  value : jsstring;
  supportThemeIcons : bool
}.

(** [vscode.Hover]. *)
Record Hover : Type := { contents : MarkdownString }.

(** [ParserSelect.isParserDoc], [FunctionDocumentation.search] and
    [FunctionDocumentation.getFuncSignature] live in files that are not part
    of the sources at hand: they are parameters.  [search] returns [None]
    for [undefined]. *)
Class HoverHost : Type := {
  isParserDoc : Uri -> bool;
  search : jsstring -> option FuncDoc;
  getFuncSignature : FuncDoc -> jsstring
}.

(** [\w]: a letter, a digit or the underscore. *)
Definition isWordChar (c : N) : bool :=
  ((48 <=? c) && (c <=? 57) || (65 <=? c) && (c <=? 90) || (c =? 95)
   || (97 <=? c) && (c <=? 122))%N.

(** [\w*$] matched at the head of [s]: the star takes a word character
    and goes on, or it stops, and then the input must end here. *)
Fixpoint matchWordsToEnd (s : jsstring) : option jsstring :=
  match s with
  | [] => Some []
  | c :: r =>
      if isWordChar c then
        match matchWordsToEnd r with
        | Some m => Some (c :: m)
        | None => None
        end
      else None
  end.

(** [/\w*$/.exec(s)[0]]: the pattern is tried at every start position from
    the left; it matches at the end of the input at the latest. *)
Fixpoint execWordsAtEnd (s : jsstring) : jsstring :=
  match matchWordsToEnd s with
  | Some m => m
  | None =>
      match s with
      | [] => []
      | _ :: r => execWordsAtEnd r
      end
  end.

(** [/\w*/.exec(s)[0]]: the pattern matches at position 0, the star taking
    the longest run of word characters. *)
Definition execWordsAtStart (s : jsstring) : jsstring := takeWhile isWordChar s.

(** [s.substring(0, n)] and [s.substring(n)] for [n >= 0]. *)
Definition substringTo (s : jsstring) (n : nat) : jsstring := firstn n s.
Definition substringFrom (s : jsstring) (n : nat) : jsstring := skipn n s.

(** The word [provideHover] looks up: [matchStart[0] + matchEnd[0]]. *)
Definition hoverLabel (lineText : jsstring) (position : Position) : jsstring :=
  let lineTrimmed := substringTo lineText (character position) in
  let matchStart := execWordsAtEnd lineTrimmed in
  let lineEnd := substringFrom lineText (character position) in
  let matchEnd := execWordsAtStart lineEnd in
  matchStart ++ matchEnd.

Section Provider.
Context {HH : HoverHost}.

(** [createHoverMarkdown]: an array element that is missing is
    [undefined], which the concatenation turns into a string and the
    condition takes for false, as it does the empty string. *)
Definition createHoverMarkdown (funcDoc : FuncDoc) : MarkdownString :=
  let label := getFuncSignature funcDoc in
  let md := {| value := label ++ [LF; LF]; supportThemeIcons := false |} in
  let desc := js "*" ++ toStringOrUndefined (nth_error (func funcDoc) 1) ++ js "*" in
  let md := {| value := value md ++ desc; supportThemeIcons := supportThemeIcons md |} in
  match return_ funcDoc with
  | Some ret =>
      match nth_error ret 1 with
      | Some (c :: d) =>
          {| value := value md ++ [LF; LF] ++ js "@returns " ++ (c :: d);
             supportThemeIcons := supportThemeIcons md |}
      | _ => md
      end
  | None => md
  end.

(** [provideHover]: the promise is resolved with a hover or with
    [undefined] ([None]), or it is rejected with what [lineAt] throws. *)
Definition provideHover (document : TextDocument) (position : Position)
  : outcome (option Hover) :=
  if negb (isParserDoc (uri document)) then Return None
  else
    match lineAt document position with
    | Throw e => Throw e
    | Return lineText =>
        let label := hoverLabel lineText position in
        match search label with
        | None => Return None
        | Some funcDoc => Return (Some {| contents := createHoverMarkdown funcDoc |})
        end
    end.

End Provider.

End HoverProvider.

(** The text before the cursor does not end in a word character. *)
Definition EndsOutsideWord (before : jsstring) : Prop :=
  before = [] \/ exists front c, before = front ++ [c] /\ HoverProvider.isWordChar c = false.

(** The text after the word does not start with a word character. *)
Definition StartsOutsideWord (after : jsstring) : Prop :=
  match after with
  | [] => True
  | c :: _ => HoverProvider.isWordChar c = false
  end.

(** A hover host that knows one parser document and one function. *)
Definition sampleHoverHost : HoverProvider.HoverHost := {|
  HoverProvider.isParserDoc := fun u => jsstring_eqb (fsPath u) (js "/parsers/wav.js");
  HoverProvider.search := fun label =>
    if jsstring_eqb label (js "read")
    then Some {| HoverProvider.func := [js "read"; js "Reads bytes."];
                 HoverProvider.return_ := None |}
    else None;
  HoverProvider.getFuncSignature := fun funcDoc =>
    hd [] (HoverProvider.func funcDoc) ++ js "(size)"
|}.

Definition sampleTextDocument : HoverProvider.TextDocument := {|
  HoverProvider.uri := {| fsPath := js "/parsers/wav.js" |};
  HoverProvider.lineAt := fun position =>
    match HoverProvider.line position with
    | O => Return (js "  read(4);")
    | S _ => Throw (Exn (js "Illegal value for `line`"))
    end
|}.

(** ** editorprovider.ts: [resolveCustomEditor] and [getMainHtml] *)

Module StringReplace.

(** [p] is a prefix of [s]. *)
Fixpoint startsWith (p s : jsstring) : bool :=
  match p, s with
  | [], _ => true
  | x :: p', y :: s' => (x =? y)%N && startsWith p' s'
  | _ :: _, [] => false
  end.

(** The first occurrence of [p] in [s]: the text before it and the text
    after it. *)
Fixpoint firstOccurrence (p s : jsstring) : option (jsstring * jsstring) :=
  if startsWith p s then Some ([], skipn (length p) s)
  else
    match s with
    | [] => None
    | c :: r =>
        match firstOccurrence p r with
        | Some (before, after) => Some (c :: before, after)
        | None => None
        end
    end.

Definition DOLLAR : N := 36.

(** The replacement text of [replace] for a string pattern, which has no
    captures: [$$] is a dollar, [$&] the matched text, [$`] the text before
    it and [$'] the text after it; any other dollar stands for itself. *)
Fixpoint getSubstitution (matched before after replacement : jsstring) : jsstring :=
  match replacement with
  | [] => []
  | c :: r =>
      if (c =? DOLLAR)%N then
        match r with
        | d :: r' =>
            if (d =? DOLLAR)%N then DOLLAR :: getSubstitution matched before after r'
            else if (d =? 38)%N then matched ++ getSubstitution matched before after r'
            else if (d =? 96)%N then before ++ getSubstitution matched before after r'
            else if (d =? 39)%N then after ++ getSubstitution matched before after r'
            else DOLLAR :: getSubstitution matched before after r
        | [] => [DOLLAR]
        end
      else c :: getSubstitution matched before after r
  end.

(** [s.replace(pattern, replacement)] with two strings: the first
    occurrence only. *)
Definition replace (s pattern replacement : jsstring) : jsstring :=
  match firstOccurrence pattern s with
  | None => s
  | Some (before, after) =>
      before ++ getSubstitution pattern before after replacement ++ after
  end.

End StringReplace.

Module EditorPanel.

(** [webview.options], of which the code sets [enableScripts]. *)
Record WebviewOptions : Type := { enableScripts : bool }.

(** The webview of a panel: its options, the documents whose message
    handler was installed with [onDidReceiveMessage], and its html. *)
Record Webview : Type := {
  options : WebviewOptions;
  listeners : list EditorDocument;
  html : jsstring
}.

(** What [resolveCustomEditor] leaves behind: the webview, and the value
    given to [console.error], if it was called. *)
Record Resolved : Type := {
  webview : Webview;
  consoleError : option exn
}.

(** The host calls of [getMainHtml]:
    [vscode.extensions.getExtension("maziac.binary-file-viewer")], whose
    result may be [undefined], reduced to its [extensionPath]; [path.join];
    the [toString] of the buffer read; and
    [webview.asWebviewUri(vscode.Uri.file(p)).toString()]. *)
Class EditorHost : Type := {
  extensionPath : option jsstring;
  join : jsstring -> jsstring -> jsstring;
  bufferToString : list byte -> jsstring;
  asWebviewUri : jsstring -> jsstring
}.

Definition PLACEHOLDER : jsstring := js "${vscodeResPath}".

Section Provider.
Context {PSM : ParserSelectModule} {PM : PathModule} {EH : EditorHost}.

(** [getMainHtml]. *)
Definition getMainHtml : M jsstring :=
  match extensionPath with
  | None =>
      throw (Exn (js "TypeError: Cannot read properties of undefined (reading 'extensionPath')"))
  | Some extPath =>
      let mainHtmlFile := join extPath (js "html/main.html") in
      buffer <- readFileSync mainHtmlFile ;;
      let mainHtml := bufferToString buffer in
      let vscodeResPath := asWebviewUri extPath in
      ret (StringReplace.replace mainHtml PLACEHOLDER vscodeResPath)
  end.

(** [resolveCustomEditor]: the options are set before the [try]; inside it
    the handler is installed first, so that it stays installed when
    [getMainHtml] throws. *)
Definition resolveCustomEditor (document : EditorDocument) (webviewPanel : Webview)
  : M Resolved :=
  let doc := document in
  let panel1 :=
    {| options := {| enableScripts := true |};
       listeners := listeners webviewPanel; html := html webviewPanel |} in
  let panel2 :=
    {| options := options panel1; listeners := listeners panel1 ++ [doc];
       html := html panel1 |} in
  tryCatch
    (mainHtml <- getMainHtml ;;
     ret {| webview := {| options := options panel2; listeners := listeners panel2;
                          html := mainHtml |};
            consoleError := None |})
    (fun e => ret {| webview := panel2; consoleError := Some e |}).

End Provider.

End EditorPanel.

(** An extension installed in [/ext], whose [html/main.html] names the
    resource path twice. *)
Definition sampleEditorHost : EditorPanel.EditorHost := {|
  EditorPanel.extensionPath := Some (js "/ext");
  EditorPanel.join := fun a b => a ++ js "/" ++ b;
  EditorPanel.bufferToString := map (fun b => Byte.to_N b);
  EditorPanel.asWebviewUri := fun p => js "https://file+.vscode-resource.vscode-cdn.net" ++ p
|}.

Definition sampleMainHtml : list byte :=
  map byteOfZ (map Z.of_N (js "<base href='${vscodeResPath}/'><p>${vscodeResPath}</p>")).

Definition sampleEditorWorld : @World emptyCatalog :=
  @Build_World emptyCatalog []
    (fun p => if jsstring_eqb p (js "/ext/html/main.html")
              then Some (RegularFile sampleMainHtml) else None)
    [] [].

Definition emptyWebview : EditorPanel.Webview :=
  {| EditorPanel.options := {| EditorPanel.enableScripts := false |};
     EditorPanel.listeners := []; EditorPanel.html := [] |}.

(* ================================================================== *)
(** * Part II: properties                                             *)
(* ================================================================== *)

(** ** Arithmetic on JavaScript numbers *)

Lemma byteValue_range (b : byte) : 0 <= byteValue b <= 255.
Proof.
  unfold byteValue. pose proof (Byte.to_N_bounded b) as H. lia.
Qed.

Lemma roundNearestEven_small (x : Z) :
  0 <= x < 2 ^ 53 -> roundNearestEven x = x.
Proof.
  intros [H0 H1]. unfold roundNearestEven.
  destruct (Z.eq_dec x 0) as [->|Hx]; [reflexivity|].
  assert (Z.log2 x < 53) by (apply Z.log2_lt_pow2; lia).
  destruct (Z.leb_spec (Z.log2 x - 52) 0); [reflexivity | lia].
Qed.

Lemma roundNearestEven_pow2 (k : Z) :
  0 <= k -> roundNearestEven (2 ^ k) = 2 ^ k.
Proof.
  intros Hk. unfold roundNearestEven.
  rewrite Z.log2_pow2 by assumption.
  destruct (Z.leb_spec (k - 52) 0) as [|He]; [reflexivity|].
  cbv zeta. set (e := k - 52) in *.
  assert (Hsplit : 2 ^ k = 2 ^ 52 * 2 ^ e)
    by (rewrite <- Z.pow_add_r by lia; f_equal; lia).
  assert (Hpos : 0 < 2 ^ e) by (apply Z.pow_pos_nonneg; lia).
  assert (Hhalf : 0 < 2 ^ (e - 1)) by (apply Z.pow_pos_nonneg; lia).
  assert (Hd : 2 ^ k / 2 ^ e = 2 ^ 52) by (rewrite Hsplit; apply Z.div_mul; lia).
  assert (Hm : 2 ^ k mod 2 ^ e = 0) by (rewrite Hsplit; apply Z.mod_mul; lia).
  rewrite Hd, Hm.
  destruct (Z.ltb_spec 0 (2 ^ (e - 1))); [|lia].
  cbn [orb]. symmetry. exact Hsplit.
Qed.

Lemma pow2_1024_gt (z : Z) : z <= 2 ^ 1023 -> (2 ^ 1024 <=? z) = false.
Proof.
  intros H. apply Z.leb_gt.
  assert (2 ^ 1023 < 2 ^ 1024) by (apply Z.pow_lt_mono_r; lia). lia.
Qed.

Lemma fromZ_exact (z : Z) : 0 <= z <= 2 ^ 53 -> fromZ z = Num z.
Proof.
  intros Hz. unfold fromZ, round53.
  assert (Hr : roundNearestEven (Z.abs z) = Z.abs z).
  { rewrite (Z.abs_eq z) by lia.
    destruct (Z.eq_dec z (2 ^ 53)) as [->|Hne].
    - apply roundNearestEven_pow2. lia.
    - apply roundNearestEven_small. lia. }
  rewrite Hr.
  assert (Hs : Z.sgn z * Z.abs z = z) by (rewrite Z.mul_comm; apply Z.abs_sgn).
  rewrite Hs, pow2_1024_gt; [reflexivity|].
  assert (2 ^ 53 < 2 ^ 1023) by (apply Z.pow_lt_mono_r; lia). lia.
Qed.

Lemma fromZ_pow2 (k : Z) : 0 <= k < 1024 -> fromZ (2 ^ k) = Num (2 ^ k).
Proof.
  intros Hk. unfold fromZ, round53.
  assert (Hpos : 0 < 2 ^ k) by (apply Z.pow_pos_nonneg; lia).
  rewrite (Z.abs_eq (2 ^ k)) by lia. rewrite roundNearestEven_pow2 by lia.
  rewrite Z.sgn_pos by assumption. rewrite Z.mul_1_l.
  rewrite (Z.abs_eq (2 ^ k)) by lia. rewrite pow2_1024_gt; [reflexivity|].
  apply Z.pow_le_mono_r; lia.
Qed.

Lemma fromZ_small_neg (z : Z) : - 2 ^ 53 <= z <= 2 ^ 53 -> fromZ z = Num z.
Proof.
  intros Hz. destruct (Z.le_gt_cases 0 z) as [Hp|Hn].
  - apply fromZ_exact. lia.
  - pose proof (fromZ_exact (- z) ltac:(lia)) as H.
    unfold fromZ, round53 in *.
    rewrite Z.abs_opp in H. rewrite Z.sgn_opp in H.
    destruct (2 ^ 1024 <=? Z.abs (- Z.sgn z * roundNearestEven (Z.abs z))) eqn:E;
      [discriminate|].
    injection H as H.
    replace (Z.sgn z * roundNearestEven (Z.abs z)) with z by lia.
    replace (- Z.sgn z * roundNearestEven (Z.abs z)) with (- z) in E by lia.
    rewrite Z.abs_opp in E. rewrite E. reflexivity.
Qed.

Lemma sub_255_byte (b : byte) :
  sub (Num 255) (elemNumber (Some b)) = Num (255 - byteValue b).
Proof.
  pose proof (byteValue_range b) as Hb.
  cbn [sub elemNumber neg add].
  assert (H53 : 2 ^ 8 <= 2 ^ 53) by (apply Z.pow_le_mono_r; lia).
  change (2 ^ 8) with 256 in H53.
  replace (255 + - byteValue b) with (255 - byteValue b) by lia.
  apply fromZ_exact. lia.
Qed.

(** ** The signed-decode accumulation *)

Lemma complementSum_nonneg (bytes : list byte) : 0 <= complementSum bytes.
Proof.
  induction bytes as [|b rest IH]; cbn [complementSum]; [lia|].
  pose proof (byteValue_range b). lia.
Qed.

Lemma unsignedValue_range (bytes : list byte) :
  0 <= unsignedValue bytes < 2 ^ (8 * Z.of_nat (length bytes)).
Proof.
  induction bytes as [|b rest IH]; cbn [unsignedValue length].
  - cbn. lia.
  - pose proof (byteValue_range b).
    replace (8 * Z.of_nat (S (length rest))) with (8 + 8 * Z.of_nat (length rest)) by lia.
    rewrite Z.pow_add_r by lia. change (2 ^ 8) with 256. lia.
Qed.

Lemma complementSum_unsignedValue (bytes : list byte) :
  complementSum bytes + 1 = 2 ^ (8 * Z.of_nat (length bytes)) - unsignedValue bytes.
Proof.
  induction bytes as [|b rest IH]; cbn [complementSum unsignedValue length].
  - reflexivity.
  - replace (8 * Z.of_nat (S (length rest))) with (8 + 8 * Z.of_nat (length rest)) by lia.
    rewrite Z.pow_add_r by lia. change (2 ^ 8) with 256. lia.
Qed.

Lemma accumulateLoop_exact (pre post rest done : list byte) (v : Z) :
  let i := length done in
  let F := 2 ^ (8 * Z.of_nat i) in
  0 <= v ->
  v + F * complementSum rest < 2 ^ 53 ->
  (i + length rest <= 100)%nat ->
  accumulateLoop number add sub mul Num elemNumber
    (pre ++ (done ++ rest) ++ post) (length pre) (length rest) i (Num v) (Num F)
  = (Num (v + F * complementSum rest),
     Num (2 ^ (8 * Z.of_nat (i + length rest)))).
Proof.
  revert done v. induction rest as [|b rest IH]; intros done v i F Hv Hsum Hlen.
  - cbn [accumulateLoop length complementSum]. subst F i.
    rewrite Nat.add_0_r. f_equal. f_equal. lia.
  - cbn [accumulateLoop length]. cbn [length] in Hlen.
    assert (Hnth : nth_error (pre ++ (done ++ b :: rest) ++ post) (length pre + i) = Some b).
    { rewrite nth_error_app2 by lia.
      replace (length pre + i - length pre)%nat with i by lia.
      rewrite nth_error_app1 by (rewrite length_app; cbn [length]; lia).
      subst i. rewrite nth_error_app2 by lia.
      rewrite Nat.sub_diag. reflexivity. }
    rewrite Hnth, sub_255_byte.
    pose proof (byteValue_range b) as Hb.
    pose proof (complementSum_nonneg rest) as Hrest.
    assert (HF : 0 < F) by (subst F; apply Z.pow_pos_nonneg; lia).
    cbn [complementSum] in Hsum.
    assert (Hterm : 0 <= F * (255 - byteValue b)) by nia.
    assert (Htail : 0 <= F * (256 * complementSum rest)) by nia.
    assert (Hdist : F * (255 - byteValue b + 256 * complementSum rest)
                    = F * (255 - byteValue b) + F * (256 * complementSum rest)) by ring.
    cbn [mul add].
    rewrite (fromZ_exact (F * (255 - byteValue b))) by lia.
    cbn [add].
    rewrite (fromZ_exact (v + F * (255 - byteValue b))) by lia.
    assert (HF' : F * 256 = 2 ^ (8 * Z.of_nat (length (done ++ [b])))).
    { subst F i. rewrite length_app. cbn [length].
      replace (8 * Z.of_nat (length done + 1)) with (8 * Z.of_nat (length done) + 8) by lia.
      rewrite Z.pow_add_r by lia. reflexivity. }
    rewrite HF'. rewrite fromZ_pow2
      by (rewrite length_app; cbn [length]; subst i; lia).
    specialize (IH (done ++ [b]) (v + F * (255 - byteValue b))).
    cbn zeta in IH.
    replace (S i) with (length (done ++ [b])) by (rewrite length_app; cbn [length]; subst i; lia).
    replace (done ++ b :: rest) with ((done ++ [b]) ++ rest)
      by (rewrite <- app_assoc; reflexivity).
    rewrite IH.
    + f_equal.
      * f_equal. cbn [complementSum]. rewrite <- HF'. ring.
      * f_equal. f_equal. rewrite length_app. cbn [length]. subst i. lia.
    + lia.
    + rewrite <- HF'. lia.
    + rewrite length_app. cbn [length]. subst i. lia.
Qed.

Lemma signedMagnitude_of_complementSum (pre bytes post : list byte) :
  (length bytes <= 100)%nat ->
  complementSum bytes < 2 ^ 53 ->
  signedMagnitude (pre ++ bytes ++ post) (length pre) (length bytes)
  = Num (complementSum bytes + 1).
Proof.
  intros Hlen Hsum. unfold signedMagnitude, accumulateWith.
  pose proof (accumulateLoop_exact pre post bytes [] 0) as H.
  cbv zeta in H. cbn [length app] in H.
  change (2 ^ (8 * Z.of_nat 0)) with 1 in H.
  rewrite Z.add_0_l, Z.mul_1_l in H.
  pose proof (complementSum_nonneg bytes).
  rewrite H; [| lia | lia | lia].
  cbn [add]. apply fromZ_exact. lia.
Qed.

(** C3 (as amended). For every byte buffer and width [n] between 1 and 8,
    the accumulation [value = sum of 256^i * (255 - b[i])], then [value++],
    run on JavaScript numbers as [activate] does, equals [2^(8n)] minus the
    unsigned base-256 value of the same bytes whenever that magnitude is at
    most [2^53]; this covers every buffer of width [n <= 6]. *)
Theorem signedMagnitude_exact_up_to_2_53 (pre bytes post : list byte) :
  (1 <= length bytes <= 8)%nat ->
  (length bytes <= 6)%nat
  \/ 2 ^ (8 * Z.of_nat (length bytes)) - unsignedValue bytes <= 2 ^ 53 ->
  signedMagnitude (pre ++ bytes ++ post) (length pre) (length bytes)
  = Num (2 ^ (8 * Z.of_nat (length bytes)) - unsignedValue bytes).
Proof.
  intros Hn Hcase.
  rewrite <- complementSum_unsignedValue.
  apply signedMagnitude_of_complementSum; [lia|].
  pose proof (complementSum_unsignedValue bytes) as Heq.
  pose proof (unsignedValue_range bytes) as HU.
  destruct Hcase as [H6|HM]; [|lia].
  assert (2 ^ (8 * Z.of_nat (length bytes)) <= 2 ^ 48)
    by (apply Z.pow_le_mono_r; lia).
  assert (2 ^ 48 < 2 ^ 53) by (apply Z.pow_lt_mono_r; lia).
  lia.
Qed.

Lemma signedMagnitude_exact_up_to_2_53_witness :
  (1 <= length activate_dataBuffer <= 8)%nat
  /\ 2 ^ (8 * Z.of_nat (length activate_dataBuffer)) - unsignedValue activate_dataBuffer
     <= 2 ^ 53
  /\ signedMagnitude ([] ++ activate_dataBuffer ++ []) (length (@nil byte))
       (length activate_dataBuffer)
     = Num (2 ^ (8 * Z.of_nat (length activate_dataBuffer))
            - unsignedValue activate_dataBuffer).
Proof.
  assert (H1 : (1 <= length activate_dataBuffer <= 8)%nat) by (cbn; lia).
  assert (H2 : 2 ^ (8 * Z.of_nat (length activate_dataBuffer))
               - unsignedValue activate_dataBuffer <= 2 ^ 53)
    by (vm_compute; discriminate).
  split; [exact H1|]. split; [exact H2|].
  apply (signedMagnitude_exact_up_to_2_53 [] activate_dataBuffer [] H1 (or_intror H2)).
Defined.

(** C3 (as stated) fails on the code: the eight bytes
    [01 00 00 00 00 00 00 80] are the two's-complement encoding of
    [-(2^63 - 1)].  Their complements are [FE FF FF FF FF FF FF 7F]; after
    six of them [value] is [2^48 - 2], after the seventh the exact sum
    [2^56 - 2] needs 55 significant bits and is rounded to [2^56], the
    eighth gives [2^56 + 127 * 2^56 = 2^63], and [value++] leaves [2^63].
    The exact magnitude [2^63 - 1] is odd and above [2^53], so no
    JavaScript number has that value. *)
Lemma signedMagnitude_rounds_above_2_53 :
  let b := [x01; x00; x00; x00; x00; x00; x00; x80] in
  (1 <= length b <= 8)%nat
  /\ 2 ^ (8 * Z.of_nat (length b)) - unsignedValue b = 2 ^ 63 - 1
  /\ signedMagnitude b 0 (length b) = Num (2 ^ 63)
  /\ signedMagnitude b 0 (length b)
     <> Num (2 ^ (8 * Z.of_nat (length b)) - unsignedValue b).
Proof.
  cbv zeta. split; [cbn; lia|]. split; [reflexivity|].
  split; [vm_compute; reflexivity|]. vm_compute. discriminate.
Qed.

(** The value [activate] logs. *)
Example activate_value_is_259 : activate_value = Num 259.
Proof. vm_compute. reflexivity. Qed.

(** The rounding model agrees with the Standard Library's IEEE 754
    binary64 arithmetic: on integers around the first ties above [2^53] and
    around the overflow threshold, and on the runs of the loop above. *)
Example fromZ_agrees_with_binary64 :
  let samples :=
    [0; 1; -4; 2 ^ 53 - 1; 2 ^ 53; 2 ^ 53 + 1; 2 ^ 53 + 2; 2 ^ 53 + 3;
     2 ^ 54 + 2; 2 ^ 54 + 6; 2 ^ 56 - 255; 2 ^ 56 - 2; 2 ^ 63 - 1; 2 ^ 64 - 1;
     - (2 ^ 53 + 1); - (2 ^ 64 - 259);
     2 ^ 1024 - 2 ^ 971; 2 ^ 1024 - 2 ^ 970 - 1; 2 ^ 1024 - 2 ^ 970; 2 ^ 1024;
     - 2 ^ 1024] in
  map fromZ samples = map (fun z => ofBinary64 (binary64 z)) samples.
Proof. vm_compute. reflexivity. Qed.

Example add_mul_agree_with_binary64 :
  let pairs :=
    [(2 ^ 48 - 2, 255 * 2 ^ 48); (2 ^ 56, 127 * 2 ^ 56); (2 ^ 63, 1);
     (2 ^ 53, 1); (2 ^ 53 + 2, 1); (3, -4); (2 ^ 56, 256); (2 ^ 1023, 2 ^ 1023)] in
  map (fun p => add (Num (fst p)) (Num (snd p))) pairs
  = map (fun p => ofBinary64 (SFadd 53 1024 (binary64 (fst p)) (binary64 (snd p)))) pairs
  /\ map (fun p => mul (Num (fst p)) (Num (snd p))) pairs
     = map (fun p => ofBinary64 (SFmul 53 1024 (binary64 (fst p)) (binary64 (snd p)))) pairs.
Proof. split; vm_compute; reflexivity. Qed.

Example signedMagnitude64_rounds :
  ofBinary64 (signedMagnitude64 [x01; x00; x00; x00; x00; x00; x00; x80] 0 8)
  = signedMagnitude [x01; x00; x00; x00; x00; x00; x00; x80] 0 8.
Proof. vm_compute. reflexivity. Qed.

Example signedMagnitude64_activate :
  ofBinary64 (signedMagnitude64 activate_dataBuffer activate_lastOffset activate_lastSize)
  = activate_value.
Proof. vm_compute. reflexivity. Qed.

Example signedMagnitude64_seven_bytes :
  ofBinary64 (signedMagnitude64 [xfe; x00; x00; x00; x00; x00; x00] 0 7)
  = signedMagnitude [xfe; x00; x00; x00; x00; x00; x00] 0 7
  /\ signedMagnitude [xfe; x00; x00; x00; x00; x00; x00] 0 7 = Num (2 ^ 56 - 256).
Proof. split; vm_compute; reflexivity. Qed.

(** ** The numeric decode primitives *)


Lemma lxor_255_byte (b : byte) : Z.lxor (byteValue b) 255 = 255 - byteValue b.
Proof. destruct b; reflexivity. Qed.














Example readInteger_out_of_bounds :
  readInteger activate_dataBuffer 1 8 false true = Failed OutOfBounds
  /\ readInteger activate_dataBuffer (-1) 2 false true = Failed OutOfBounds
  /\ readInteger activate_dataBuffer 6 2 false false = Value (Num 65535).
Proof. repeat split. Qed.


(** The rounded reads agree with the Standard Library's binary64
    arithmetic run over the same bytes. *)
Example readInteger_agrees_with_binary64 :
  readInteger [x01; x00; x00; x00; x00; x00; x00; x80] 0 8 true true
  = Value (neg (ofBinary64 (signedMagnitude64 [x01; x00; x00; x00; x00; x00; x00; x80] 0 8)))
  /\ readInteger activate_dataBuffer 0 8 true true
     = Value (neg (ofBinary64 (signedMagnitude64 activate_dataBuffer 0 8))).
Proof. split; vm_compute; reflexivity. Qed.

(** ** The regular expression and [parseInt] *)

Lemma takeWhile_dropWhile (p : N -> bool) (s : jsstring) :
  s = takeWhile p s ++ dropWhile p s.
Proof.
  induction s as [|c r IH]; cbn [takeWhile dropWhile]; [reflexivity|].
  destruct (p c); [cbn [app]; f_equal; exact IH | reflexivity].
Qed.

Lemma takeWhile_Forall (p : N -> bool) (s : jsstring) :
  Forall (fun c => p c = true) (takeWhile p s).
Proof.
  induction s as [|c r IH]; cbn [takeWhile]; [constructor|].
  destruct (p c) eqn:E; [constructor; assumption | constructor].
Qed.

Lemma dropWhile_head (p : N -> bool) (s : jsstring) :
  match dropWhile p s with
  | [] => True
  | c :: _ => p c = false
  end.
Proof.
  induction s as [|c r IH]; cbn [dropWhile]; [exact I|].
  destruct (p c) eqn:E; [exact IH | exact E].
Qed.

Lemma takeWhile_all (p : N -> bool) (s : jsstring) :
  Forall (fun c => p c = true) s -> takeWhile p s = s.
Proof.
  induction 1 as [|c r Hc _ IH]; cbn [takeWhile]; [reflexivity|].
  rewrite Hc, IH. reflexivity.
Qed.

Lemma matchTail_sound (s m : jsstring) :
  matchTail s = Some m ->
  exists after, s = CHAR_GT :: CHAR_COLON :: m ++ after /\ DigitRun m after.
Proof.
  unfold matchTail. destruct s as [|a [|b [|d r]]]; try discriminate.
  destruct ((a =? CHAR_GT)%N && (b =? CHAR_COLON)%N && isDigit d) eqn:E; [|discriminate].
  intros [= <-].
  apply andb_true_iff in E. destruct E as [E Hd].
  apply andb_true_iff in E. destruct E as [Ha Hb].
  apply N.eqb_eq in Ha, Hb. subst a b.
  exists (dropWhile isDigit r). split.
  - cbn [app]. do 3 f_equal. apply takeWhile_dropWhile.
  - split; [discriminate|]. split.
    + constructor; [exact Hd | apply takeWhile_Forall].
    + apply dropWhile_head.
Qed.

Lemma matchDotStar_sound (s m : jsstring) :
  matchDotStar s = Some m ->
  exists before after,
    s = before ++ CHAR_GT :: CHAR_COLON :: m ++ after /\ DigitRun m after.
Proof.
  induction s as [|c r IH]; cbn [matchDotStar].
  - discriminate.
  - assert (Htail : matchTail (c :: r) = Some m ->
                    exists before after,
                      c :: r = before ++ CHAR_GT :: CHAR_COLON :: m ++ after
                      /\ DigitRun m after).
    { intros H. apply matchTail_sound in H. destruct H as (after & Hs & Hrun).
      exists [], after. split; assumption. }
    destruct (isLineTerminator c); [exact Htail|].
    destruct (matchDotStar r) as [m'|] eqn:E; [|exact Htail].
    intros [= ->]. destruct (IH eq_refl) as (before & after & Hs & Hrun).
    exists (c :: before), after. split; [cbn [app]; f_equal; exact Hs | exact Hrun].
Qed.

Lemma regexExec_sound (s m : jsstring) :
  regexExec s = Some m ->
  exists before after,
    s = before ++ CHAR_GT :: CHAR_COLON :: m ++ after /\ DigitRun m after.
Proof.
  induction s as [|c r IH]; cbn [regexExec].
  - destruct (matchDotStar []) eqn:E; [|discriminate].
    intros [= ->]. apply matchDotStar_sound. exact E.
  - destruct (matchDotStar (c :: r)) as [m'|] eqn:E.
    + intros [= ->]. apply matchDotStar_sound. exact E.
    + intros H. destruct (IH H) as (before & after & Hs & Hrun).
      exists (c :: before), after. split; [cbn [app]; f_equal; exact Hs | exact Hrun].
Qed.

Lemma matchDotStar_of_matchTail (s : jsstring) :
  matchTail s <> None -> matchDotStar s <> None.
Proof.
  destruct s as [|c r]; cbn [matchDotStar]; [trivial|].
  intros H. destruct (isLineTerminator c); [exact H|].
  destruct (matchDotStar r); [discriminate | exact H].
Qed.

Lemma regexExec_complete (s : jsstring) :
  MatchesPattern s -> regexExec s <> None.
Proof.
  intros (before & d & after & -> & Hd).
  induction before as [|c before IH].
  - cbn [app]. unfold regexExec at 1.
    destruct (matchDotStar (CHAR_GT :: CHAR_COLON :: d :: after)) eqn:E; [discriminate|].
    exfalso. revert E. apply matchDotStar_of_matchTail.
    unfold matchTail. rewrite !N.eqb_refl, Hd. discriminate.
  - cbn [app regexExec].
    destruct (matchDotStar (c :: before ++ CHAR_GT :: CHAR_COLON :: d :: after));
      [discriminate | exact IH].
Qed.

Lemma regexExec_None_iff (s : jsstring) :
  regexExec s = None <-> ~ MatchesPattern s.
Proof.
  split.
  - intros H Hm. exact (regexExec_complete s Hm H).
  - intros H. destruct (regexExec s) as [m|] eqn:E; [|reflexivity].
    exfalso. apply H. apply regexExec_sound in E.
    destruct E as (before & after & -> & Hne & Hall & _).
    destruct m as [|d m]; [contradiction|].
    exists before, d, (m ++ after). split; [reflexivity|].
    now inversion Hall.
Qed.

Lemma MatchesPattern_HasColonDigits (s : jsstring) :
  MatchesPattern s -> HasColonDigits s.
Proof.
  intros (before & d & after & -> & Hd).
  exists (before ++ [CHAR_GT]), d, after. split; [|exact Hd].
  rewrite <- app_assoc. reflexivity.
Qed.

Lemma isDigit_range (c : N) : isDigit c = true <-> (48 <= c <= 57)%N.
Proof.
  unfold isDigit. rewrite andb_true_iff, !N.leb_le. reflexivity.
Qed.

Lemma isDigit_not_whitespace (c : N) : isDigit c = true -> isWhiteSpace c = false.
Proof.
  intros H. apply isDigit_range in H. unfold isWhiteSpace, LS, PS.
  repeat match goal with
         | |- context [(?a <=? ?b)%N] => destruct (N.leb_spec a b)
         | |- context [(?a =? ?b)%N] => destruct (N.eqb_spec a b)
         end; cbn; try reflexivity; lia.
Qed.

Lemma isDigit_radix10 (c : N) : isDigit c = true -> isRadixDigit 10 c = true.
Proof. intros H. unfold isRadixDigit, digitValue. rewrite H. reflexivity. Qed.

Lemma digitsValue_nonneg (ds : jsstring) (acc : Z) :
  0 <= acc ->
  Forall (fun c => isDigit c = true) ds ->
  0 <= fold_left
         (fun acc c => 10 * acc + match digitValue 10 c with Some v => v | None => 0 end)
         ds acc.
Proof.
  intros Hacc Hall. revert acc Hacc.
  induction Hall as [|c r Hc _ IH]; intros acc Hacc; cbn [fold_left]; [exact Hacc|].
  apply IH. unfold digitValue. rewrite Hc.
  apply isDigit_range in Hc. lia.
Qed.

Lemma decimalValue_nonneg (ds : jsstring) :
  Forall (fun c => isDigit c = true) ds -> 0 <= decimalValue ds.
Proof. intros H. apply digitsValue_nonneg; [lia | exact H]. Qed.

(** [parseInt] of a run of decimal digits is the Number nearest to its
    decimal value. *)
Lemma parseInt_digits (ds : jsstring) :
  ds <> [] ->
  Forall (fun c => isDigit c = true) ds ->
  parseInt ds = fromZ (decimalValue ds).
Proof.
  intros Hne Hall. destruct ds as [|d r]; [contradiction|].
  pose proof Hall as Hall'. inversion Hall as [|? ? Hd Hr]; subst.
  unfold parseInt. cbn [dropWhile].
  rewrite (isDigit_not_whitespace d Hd).
  pose proof (proj1 (isDigit_range d) Hd) as Hrange.
  destruct (N.eqb_spec d 45); [lia|]. destruct (N.eqb_spec d 43); [lia|].
  assert (Htake : takeWhile (isRadixDigit 10) (d :: r) = d :: r).
  { apply takeWhile_all. eapply Forall_impl; [|exact Hall'].
    intros c Hc. apply isDigit_radix10. exact Hc. }
  destruct r as [|x r0].
  - rewrite Htake. reflexivity.
  - inversion Hr as [|? ? Hx _]; subst. apply isDigit_range in Hx.
    destruct (N.eqb_spec x 120); [lia|]. destruct (N.eqb_spec x 88); [lia|].
    rewrite andb_false_r. rewrite Htake. reflexivity.
Qed.

Lemma sub_4_exact (k : Z) : 0 <= k <= 2 ^ 53 -> sub (fromZ k) (Num 4) = Num (k - 4).
Proof.
  intros Hk. rewrite fromZ_exact by lia. cbn [sub neg add].
  replace (k + -4) with (k - 4) by lia.
  apply fromZ_small_neg.
  assert (2 ^ 3 <= 2 ^ 53) by (apply Z.pow_le_mono_r; lia).
  change (2 ^ 3) with 8 in *. lia.
Qed.

(** Which match gives the capture: the greedy [.*] takes the last place
    where [>:] is followed by a digit. *)

Lemma takeWhile_app_stop (p : N -> bool) (run after : jsstring) :
  Forall (fun c => p c = true) run ->
  match after with [] => True | c :: _ => p c = false end ->
  takeWhile p (run ++ after) = run.
Proof.
  intros Hall Hstop. induction Hall as [|c r Hc _ IH]; cbn [app takeWhile].
  - destruct after as [|c r]; [reflexivity|]. cbn [takeWhile]. rewrite Hstop. reflexivity.
  - rewrite Hc, IH. reflexivity.
Qed.

Lemma app_split_after (x : N) (m n l1 l2 : jsstring) :
  l1 ++ x :: l2 = m ++ n -> ~ In x m ->
  exists l1', l1 = m ++ l1' /\ n = l1' ++ x :: l2.
Proof.
  revert l1. induction m as [|c m IH]; intros l1 Heq Hnot.
  - exists l1. split; [reflexivity | symmetry; exact Heq].
  - destruct l1 as [|c' l1]; cbn [app] in Heq.
    + injection Heq as Hx _. exfalso. apply Hnot. left. symmetry. exact Hx.
    + injection Heq as -> Heq.
      destruct (IH l1 Heq) as (l1' & -> & ->); [intros H; apply Hnot; right; exact H|].
      exists l1'. split; reflexivity.
Qed.

Lemma no_match_across_digits (digits after : jsstring) :
  Forall (fun c => isDigit c = true) digits ->
  ~ MatchesPattern after ->
  ~ MatchesPattern (CHAR_COLON :: digits ++ after).
Proof.
  intros Hall Hno (before & d & rest & Heq & Hd).
  destruct (app_split_after CHAR_GT (CHAR_COLON :: digits) after before
              (CHAR_COLON :: d :: rest)) as (l1' & _ & Hafter).
  - symmetry. exact Heq.
  - intros [H|H]; [discriminate H|].
    rewrite Forall_forall in Hall. specialize (Hall _ H). discriminate Hall.
  - apply Hno. exists l1', d, rest. split; assumption.
Qed.

Lemma matchDotStar_cons (c : N) (r : jsstring) :
  matchDotStar (c :: r)
  = if isLineTerminator c then matchTail (c :: r)
    else match matchDotStar r with
         | Some m => Some m
         | None => matchTail (c :: r)
         end.
Proof. reflexivity. Qed.

Lemma matchDotStar_rightmost (before digits after : jsstring) :
  forallb (fun c => negb (isLineTerminator c)) before = true ->
  DigitRun digits after ->
  ~ MatchesPattern after ->
  matchDotStar (before ++ CHAR_GT :: CHAR_COLON :: digits ++ after) = Some digits.
Proof.
  intros Hbefore (Hne & Hall & Hstop) Hno.
  induction before as [|c before IH]; cbn [app]; rewrite matchDotStar_cons.
  - change (isLineTerminator CHAR_GT) with false. cbv iota.
    destruct (matchDotStar (CHAR_COLON :: digits ++ after)) as [m|] eqn:E.
    + exfalso. apply (no_match_across_digits digits after Hall Hno).
      apply matchDotStar_sound in E. destruct E as (b & a & Heq & Hne' & Hall' & _).
      destruct m as [|d m]; [contradiction|].
      exists b, d, (m ++ a). split; [exact Heq | now inversion Hall'].
    + destruct digits as [|d ds]; [contradiction|].
      inversion Hall as [|? ? Hd Hds]; subst.
      unfold matchTail. cbn [app]. rewrite !N.eqb_refl, Hd. cbn [andb].
      rewrite (takeWhile_app_stop isDigit ds after Hds Hstop). reflexivity.
  - cbn [forallb] in Hbefore. apply andb_true_iff in Hbefore. destruct Hbefore as [Hc Hrest].
    apply negb_true_iff in Hc. rewrite Hc. rewrite (IH Hrest). reflexivity.
Qed.

Lemma regexExec_of_matchDotStar (s m : jsstring) :
  matchDotStar s = Some m -> regexExec s = Some m.
Proof. intros H. destruct s; cbn [regexExec]; rewrite H; reflexivity. Qed.

(** ** Lines of a failure text *)

Lemma split_unfold (s : jsstring) :
  split LF s
  = firstLine s :: match dropWhile notLF s with
                   | [] => []
                   | _ :: rest => split LF rest
                   end.
Proof.
  unfold firstLine. induction s as [|c r IH]; cbn [split takeWhile dropWhile].
  - reflexivity.
  - unfold notLF at 1 3. destruct (c =? LF)%N; cbn [negb].
    + reflexivity.
    + rewrite IH. reflexivity.
Qed.

Lemma split_first (s : jsstring) : hd [] (split LF s) = firstLine s.
Proof. rewrite split_unfold. reflexivity. Qed.

Lemma split_second (s : jsstring) : nth_error (split LF s) 1 = secondLine s.
Proof.
  rewrite split_unfold. unfold secondLine. cbn [nth_error].
  destruct (dropWhile notLF s) as [|c rest]; [reflexivity|].
  rewrite split_unfold. reflexivity.
Qed.

Lemma firstLine_spec (s : jsstring) :
  exists rest,
    s = firstLine s ++ rest
    /\ ~ In LF (firstLine s)
    /\ match rest with [] => True | c :: _ => c = LF end.
Proof.
  exists (dropWhile notLF s). split; [apply takeWhile_dropWhile|]. split.
  - intros Hin. pose proof (takeWhile_Forall notLF s) as Hall.
    rewrite Forall_forall in Hall. specialize (Hall LF Hin).
    unfold notLF in Hall. rewrite N.eqb_refl in Hall. discriminate.
  - pose proof (dropWhile_head notLF s) as H.
    destruct (dropWhile notLF s) as [|c r]; [exact I|].
    unfold notLF in H. apply negb_false_iff, N.eqb_eq in H. exact H.
Qed.

(** ** editorprovider.ts: the [customParserError] message *)

Section EditorProviderFacts.
Context {PSM : ParserSelectModule} {PM : PathModule}.

Lemma onDidReceiveMessage_customParserError (doc : EditorDocument) (message : Message)
  (w : World) :
  command message = js "customParserError" ->
  exists r w',
    onDidReceiveMessage doc message w = (r, w')
    /\ trace w'
       = trace w ++ [AddDiagnosticsMessage (firstLine (text message))
                       (filePath (parser doc))
                       (diagnosticLine (split LF (text message)))].
Proof.
  intros Hcmd. unfold onDidReceiveMessage. rewrite Hcmd.
  change (jsstring_eqb (js "customParserError") (js "ready")) with false.
  change (jsstring_eqb (js "customParserError") (js "customParserError")) with true.
  cbv iota. rewrite split_first.
  unfold addDiagnosticsMessage, callParserSelect.
  destruct (ps_addDiagnosticsMessage _ _ _ _) as [r st].
  eexists r, _. split; reflexivity.
Qed.

(** C2. On a [customParserError] message the diagnostic carries the first
    line of the failure text as its message, and its line is recovered from
    the second line of the text.  When that line holds [>:] followed by a
    run of digits, with no line terminator before it and no further such
    place after it, the line is the JavaScript number
    [parseInt(digits) - 4], where [parseInt(digits)] is the Number nearest
    to the decimal value [k] of the digits; it is [k - 4] for [k] up to
    [2^53].  Whenever the second line matches the pattern [/.*>:(\d+)/],
    the line is obtained in this way from one of its digit runs.  The line
    is 0 whenever the second line (if any) does not match the pattern; all
    the more when it holds no colon followed by a digit at all. *)
Theorem customParserError_first_line_and_default (doc : EditorDocument)
  (message : Message) (w : World) :
  command message = js "customParserError" ->
  exists line r w',
    onDidReceiveMessage doc message w = (r, w')
    /\ trace w'
       = trace w ++ [AddDiagnosticsMessage (firstLine (text message))
                       (filePath (parser doc)) line]
    /\ ((forall l2, secondLine (text message) = Some l2 -> ~ MatchesPattern l2) ->
        line = Num 0)
    /\ ((forall l2, secondLine (text message) = Some l2 -> ~ HasColonDigits l2) ->
        line = Num 0)
    /\ (forall before digits after,
          secondLine (text message)
          = Some (before ++ CHAR_GT :: CHAR_COLON :: digits ++ after) ->
          forallb (fun c => negb (isLineTerminator c)) before = true ->
          DigitRun digits after ->
          ~ MatchesPattern after ->
          line = sub (parseInt digits) (Num 4)
          /\ parseInt digits = fromZ (decimalValue digits)
          /\ 0 <= decimalValue digits
          /\ (decimalValue digits <= 2 ^ 53 -> line = Num (decimalValue digits - 4)))
    /\ (forall l2,
          secondLine (text message) = Some l2 ->
          MatchesPattern l2 ->
          exists before digits after,
            l2 = before ++ CHAR_GT :: CHAR_COLON :: digits ++ after
            /\ DigitRun digits after
            /\ line = sub (parseInt digits) (Num 4)
            /\ parseInt digits = fromZ (decimalValue digits)).
Proof.
  intros Hcmd.
  destruct (onDidReceiveMessage_customParserError doc message w Hcmd) as (r & w' & Hrun & Htrace).
  exists (diagnosticLine (split LF (text message))), r, w'.
  split; [exact Hrun|]. split; [exact Htrace|].
  assert (Hdefault : (forall l2, secondLine (text message) = Some l2 -> ~ MatchesPattern l2) ->
                     diagnosticLine (split LF (text message)) = Num 0).
  { intros Hno. unfold diagnosticLine. rewrite split_second.
    destruct (secondLine (text message)) as [l2|] eqn:E2; cbn [toStringOrUndefined].
    - rewrite (proj2 (regexExec_None_iff l2) (Hno l2 eq_refl)). reflexivity.
    - reflexivity. }
  split; [exact Hdefault|].
  split.
  { intros Hno. apply Hdefault. intros l2 H2 Hm.
    exact (Hno l2 H2 (MatchesPattern_HasColonDigits l2 Hm)). }
  split.
  - intros before digits after H2 Hbefore Hdigits Hlast.
    assert (Hline : diagnosticLine (split LF (text message)) = sub (parseInt digits) (Num 4)).
    { unfold diagnosticLine. rewrite split_second, H2. cbn [toStringOrUndefined].
      rewrite (regexExec_of_matchDotStar _ digits
                 (matchDotStar_rightmost before digits after Hbefore Hdigits Hlast)).
      reflexivity. }
    pose proof Hdigits as (Hne & Hall & _).
    pose proof (parseInt_digits digits Hne Hall) as Hparse.
    pose proof (decimalValue_nonneg digits Hall) as Hk.
    split; [exact Hline|]. split; [exact Hparse|]. split; [exact Hk|].
    intros Hle. rewrite Hline, Hparse. apply sub_4_exact. lia.
  - intros l2 H2 Hm.
    destruct (regexExec l2) as [digits|] eqn:Hexec;
      [|exfalso; exact (regexExec_complete l2 Hm Hexec)].
    destruct (regexExec_sound l2 digits Hexec) as (before & after & Hl2 & Hdigits).
    exists before, digits, after.
    split; [exact Hl2|]. split; [exact Hdigits|].
    pose proof Hdigits as (Hne & Hall & _).
    split; [|exact (parseInt_digits digits Hne Hall)].
    unfold diagnosticLine. rewrite split_second, H2. cbn [toStringOrUndefined].
    rewrite Hexec. reflexivity.
Qed.

(** C9 (as amended). When the second line of the failure text matches the
    pattern [/.*>:(\d+)/], which asks for a [>] directly before the colon,
    with captured digits of decimal value [k], the diagnostic is reported
    at the JavaScript number [parseInt(digits) - 4]; this is [k - 4] for
    every [k] up to [2^53], with no clamping, so that [k <= 4] gives a line
    that is zero or negative. *)
Theorem customParserError_line_is_unclamped (doc : EditorDocument)
  (message : Message) (w : World) (digits : jsstring) :
  command message = js "customParserError" ->
  regexExec (toStringOrUndefined (secondLine (text message))) = Some digits ->
  let k := decimalValue digits in
  exists r w',
    onDidReceiveMessage doc message w = (r, w')
    /\ trace w'
       = trace w ++ [AddDiagnosticsMessage (firstLine (text message))
                       (filePath (parser doc)) (sub (parseInt digits) (Num 4))]
    /\ (exists l2 before after,
          secondLine (text message) = Some l2
          /\ l2 = before ++ CHAR_GT :: CHAR_COLON :: digits ++ after
          /\ DigitRun digits after)
    /\ parseInt digits = fromZ k
    /\ 0 <= k
    /\ (k <= 2 ^ 53 -> sub (parseInt digits) (Num 4) = Num (k - 4))
    /\ (k <= 4 -> sub (parseInt digits) (Num 4) = Num (k - 4) /\ k - 4 <= 0).
Proof.
  intros Hcmd Hexec k.
  destruct (onDidReceiveMessage_customParserError doc message w Hcmd) as (r & w' & Hrun & Htrace).
  exists r, w'. split; [exact Hrun|].
  unfold diagnosticLine in Htrace. rewrite split_second, Hexec in Htrace.
  split; [exact Htrace|].
  assert (Hsecond : exists l2, secondLine (text message) = Some l2).
  { destruct (secondLine (text message)) as [l2|]; [eauto|].
    cbn [toStringOrUndefined] in Hexec. vm_compute in Hexec. discriminate. }
  destruct Hsecond as (l2 & H2). rewrite H2 in Hexec. cbn [toStringOrUndefined] in Hexec.
  destruct (regexExec_sound l2 digits Hexec) as (before & after & Hl2 & Hrun').
  pose proof Hrun' as (Hne & Hall & _).
  pose proof (decimalValue_nonneg digits Hall) as Hk. fold k in Hk.
  pose proof (parseInt_digits digits Hne Hall) as Hparse. fold k in Hparse.
  split; [exists l2, before, after; auto|].
  split; [exact Hparse|]. split; [exact Hk|].
  rewrite Hparse.
  assert (H53 : 2 ^ 3 <= 2 ^ 53) by (apply Z.pow_le_mono_r; lia).
  change (2 ^ 3) with 8 in H53.
  split.
  - intros Hle. apply sub_4_exact. lia.
  - intros Hle. split; [apply sub_4_exact; lia | lia].
Qed.

End EditorProviderFacts.

Lemma customParserError_first_line_and_default_witness :
  let message := {| command := js "customParserError";
                    text := js "Error: boom" ++ [LF] ++ js "    at run (main.js:12:3)" |} in
  let matching := {| command := js "customParserError";
                     text := js "Error: boom" ++ [LF]
                             ++ js "    at eval (<anonymous>:12:3)" |} in
  command message = js "customParserError"
  /\ (forall l2, secondLine (text message) = Some l2 -> ~ MatchesPattern l2)
  /\ (exists r w',
        @onDidReceiveMessage emptyCatalog sampleDocument message sampleWorld = (r, w')
        /\ trace w'
           = trace sampleWorld
             ++ [AddDiagnosticsMessage (js "Error: boom") (js "/parsers/wav.js") (Num 0)])
  /\ command matching = js "customParserError"
  /\ (exists r w',
        @onDidReceiveMessage emptyCatalog sampleDocument matching sampleWorld = (r, w')
        /\ trace w'
           = trace sampleWorld
             ++ [AddDiagnosticsMessage (js "Error: boom") (js "/parsers/wav.js") (Num 8)]).
Proof.
  cbv zeta.
  assert (Hno : forall l2,
             secondLine (js "Error: boom" ++ [LF] ++ js "    at run (main.js:12:3)")
             = Some l2 -> ~ MatchesPattern l2).
  { intros l2 H. vm_compute in H. injection H as <-.
    apply regexExec_None_iff. reflexivity. }
  split; [reflexivity|]. split; [exact Hno|]. split; [|split; [reflexivity|]].
  - destruct (@customParserError_first_line_and_default emptyCatalog sampleDocument
                {| command := js "customParserError";
                   text := js "Error: boom" ++ [LF] ++ js "    at run (main.js:12:3)" |}
                sampleWorld eq_refl)
      as (line & r & w' & Hrun & Htrace & Hdefault & _).
    exists r, w'. split; [exact Hrun|].
    rewrite Htrace, (Hdefault Hno). reflexivity.
  - destruct (@customParserError_first_line_and_default emptyCatalog sampleDocument
                {| command := js "customParserError";
                   text := js "Error: boom" ++ [LF]
                           ++ js "    at eval (<anonymous>:12:3)" |}
                sampleWorld eq_refl)
      as (line & r & w' & Hrun & Htrace & _ & _ & Hrecover & _).
    exists r, w'. split; [exact Hrun|].
    assert (Hrun12 : DigitRun (js "12") (js ":3)"))
      by (split; [discriminate|]; split; [repeat constructor | reflexivity]).
    assert (Hlast : ~ MatchesPattern (js ":3)"))
      by (apply regexExec_None_iff; reflexivity).
    destruct (Hrecover (js "    at eval (<anonymous") (js "12") (js ":3)")
                eq_refl eq_refl Hrun12 Hlast) as (_ & _ & _ & Hexact).
    rewrite Htrace, Hexact; [reflexivity|].
    vm_compute. discriminate.
Defined.

Lemma customParserError_line_is_unclamped_witness :
  let message := {| command := js "customParserError"; text := sampleFailureText |} in
  command message = js "customParserError"
  /\ regexExec (toStringOrUndefined (secondLine (text message))) = Some (js "3")
  /\ exists r w',
       @onDidReceiveMessage emptyCatalog sampleDocument message sampleWorld = (r, w')
       /\ trace w'
          = trace sampleWorld
            ++ [AddDiagnosticsMessage (firstLine (text message))
                  (filePath (parser sampleDocument)) (sub (parseInt (js "3")) (Num 4))]
       /\ sub (parseInt (js "3")) (Num 4) = Num (-1).
Proof.
  cbv zeta. split; [reflexivity|]. split; [reflexivity|].
  destruct (@customParserError_line_is_unclamped emptyCatalog sampleDocument
              {| command := js "customParserError"; text := sampleFailureText |}
              sampleWorld (js "3") eq_refl eq_refl)
    as (r & w' & Hrun & Htrace & _ & _ & _ & _ & Hsmall).
  exists r, w'. split; [exact Hrun|]. split; [exact Htrace|].
  apply Hsmall. vm_compute. discriminate.
Defined.

(** C9 (as stated) fails on the code.  The second line
    [    at run (main.js:12:3)] holds [:12] and [:3], a colon followed by
    digits, but no [>:]: the pattern of the code does not match it, and the
    diagnostic is reported at line 0, which is neither [12 - 4] nor
    [3 - 4].  And in the second line
    [    at eval (<anonymous>:9007199254740993:1)] the digits after [>:]
    have the value [2^53 + 1], whose nearest JavaScript number is [2^53]:
    the line reported is [2^53 - 4], not [2^53 + 1 - 4]. *)
Lemma customParserError_colon_digits_not_k_minus_4 :
  let l2 := js "    at run (main.js:12:3)" in
  let message := {| command := js "customParserError";
                    text := js "Error: boom" ++ [LF] ++ l2 |} in
  let big := js "    at eval (<anonymous>:9007199254740993:1)" in
  let message' := {| command := js "customParserError";
                     text := js "Error: boom" ++ [LF] ++ big |} in
  secondLine (text message) = Some l2
  /\ l2 = js "    at run (main.js" ++ CHAR_COLON :: js "12" ++ js ":3)"
  /\ DigitRun (js "12") (js ":3)")
  /\ decimalValue (js "12") = 12
  /\ l2 = js "    at run (main.js:12" ++ CHAR_COLON :: js "3" ++ js ")"
  /\ DigitRun (js "3") (js ")")
  /\ decimalValue (js "3") = 3
  /\ (exists r w',
        @onDidReceiveMessage emptyCatalog sampleDocument message sampleWorld = (r, w')
        /\ trace w'
           = trace sampleWorld
             ++ [AddDiagnosticsMessage (js "Error: boom") (js "/parsers/wav.js") (Num 0)])
  /\ Num 0 <> Num (12 - 4)
  /\ Num 0 <> Num (3 - 4)
  /\ secondLine (text message') = Some big
  /\ big = js "    at eval (<anonymous" ++ CHAR_GT :: CHAR_COLON
                :: js "9007199254740993" ++ js ":1)"
  /\ DigitRun (js "9007199254740993") (js ":1)")
  /\ decimalValue (js "9007199254740993") = 2 ^ 53 + 1
  /\ (exists r w',
        @onDidReceiveMessage emptyCatalog sampleDocument message' sampleWorld = (r, w')
        /\ trace w'
           = trace sampleWorld
             ++ [AddDiagnosticsMessage (js "Error: boom") (js "/parsers/wav.js")
                   (Num (2 ^ 53 - 4))])
  /\ Num (2 ^ 53 - 4) <> Num (2 ^ 53 + 1 - 4).
Proof.
  cbv zeta.
  assert (Hdigits : forall digits after : jsstring,
             digits <> [] ->
             forallb isDigit digits = true ->
             match after with [] => True | c :: _ => isDigit c = false end ->
             DigitRun digits after).
  { intros digits after Hne Hall Hstop. split; [exact Hne|]. split; [|exact Hstop].
    apply Forall_forall. intros c Hc.
    exact (proj1 (forallb_forall isDigit digits) Hall c Hc). }
  split; [vm_compute; reflexivity|].
  split; [vm_compute; reflexivity|].
  split; [apply Hdigits; [discriminate | reflexivity | reflexivity]|].
  split; [vm_compute; reflexivity|].
  split; [vm_compute; reflexivity|].
  split; [apply Hdigits; [discriminate | reflexivity | reflexivity]|].
  split; [vm_compute; reflexivity|].
  split.
  { destruct (@onDidReceiveMessage_customParserError emptyCatalog sampleDocument
                {| command := js "customParserError";
                   text := js "Error: boom" ++ [LF] ++ js "    at run (main.js:12:3)" |}
                sampleWorld eq_refl) as (r & w' & Hrun & Htrace).
    exists r, w'. split; [exact Hrun|]. rewrite Htrace. vm_compute. reflexivity. }
  split; [discriminate|]. split; [discriminate|].
  split; [vm_compute; reflexivity|].
  split; [vm_compute; reflexivity|].
  split; [apply Hdigits; [discriminate | reflexivity | reflexivity]|].
  split; [vm_compute; reflexivity|].
  split.
  { destruct (@onDidReceiveMessage_customParserError emptyCatalog sampleDocument
                {| command := js "customParserError";
                   text := js "Error: boom" ++ [LF]
                           ++ js "    at eval (<anonymous>:9007199254740993:1)" |}
                sampleWorld eq_refl) as (r & w' & Hrun & Htrace).
    exists r, w'. split; [exact Hrun|]. rewrite Htrace. vm_compute. reflexivity. }
  vm_compute. discriminate.
Qed.

(** ** extension.ts: the handlers *)

Lemma Contains_middle (before x after : jsstring) : Contains x (before ++ x ++ after).
Proof. exists before, after. reflexivity. Qed.

Lemma Contains_app_l (x s tail : jsstring) : Contains x s -> Contains x (s ++ tail).
Proof.
  intros (before & after & ->). exists before, (after ++ tail).
  rewrite <- !app_assoc. reflexivity.
Qed.

Lemma Contains_app_r (x s front : jsstring) : Contains x s -> Contains x (front ++ s).
Proof.
  intros (before & after & ->). exists (front ++ before), after.
  rewrite <- !app_assoc. reflexivity.
Qed.

Lemma fold_left_tried (parserPaths : list jsstring) (msg : jsstring) :
  fold_left (fun msg parserPath => msg ++ [LF] ++ parserPath) parserPaths msg
  = msg ++ flat_map (fun parserPath => LF :: parserPath) parserPaths.
Proof.
  revert msg. induction parserPaths as [|q rest IH]; intros msg; cbn [fold_left flat_map].
  - symmetry. apply app_nil_r.
  - rewrite IH. rewrite <- !app_assoc. reflexivity.
Qed.

Lemma mergeRenamed_flat_map (files : list RenamedFile) :
  mergeRenamed files = flat_map (fun f => [newUri f; oldUri f]) files.
Proof.
  unfold mergeRenamed.
  assert (H : forall acc,
             fold_left (fun merged f => (merged ++ [newUri f]) ++ [oldUri f]) files acc
             = acc ++ flat_map (fun f => [newUri f; oldUri f]) files).
  { induction files as [|f rest IH]; intros acc; cbn [fold_left flat_map].
    - symmetry. apply app_nil_r.
    - rewrite IH. rewrite <- !app_assoc. reflexivity. }
  apply H.
Qed.

Lemma statFollow_entry (fs : FileSystem) (hops : nat) (p : jsstring) :
  statFollow fs hops p <> None -> fs p <> None.
Proof.
  destruct hops; cbn [statFollow]; destruct (fs p); congruence.
Qed.

Section ExtensionFacts.
Context {PSM : ParserSelectModule} {PM : PathModule}.

Lemma addEvents_nil (w : World) : addEvents [] w = w.
Proof. destruct w. unfold addEvents. cbn. rewrite app_nil_r. reflexivity. Qed.

Lemma addEvents_addEvents (evs evs' : list Event) (w : World) :
  addEvents evs' (addEvents evs w) = addEvents (evs ++ evs') w.
Proof. unfold addEvents. cbn. rewrite app_assoc. reflexivity. Qed.

Lemma noParserMessage_names_file (filePath : jsstring) (parserPaths : list jsstring) :
  Contains (basename filePath) (noParserMessage filePath parserPaths).
Proof.
  unfold noParserMessage.
  assert (H : Contains (basename filePath)
                (js "Binary-File-Viewer: No parser available for '" ++ basename filePath
                 ++ js "'." ++ [LF])) by apply Contains_middle.
  destruct (0 <? length parserPaths)%nat; [|exact H].
  rewrite fold_left_tried. apply Contains_app_l, Contains_app_l. exact H.
Qed.

Lemma noParserMessage_names_parsers (filePath : jsstring) (parserPaths : list jsstring)
  (parserPath : jsstring) :
  In parserPath parserPaths ->
  Contains parserPath (noParserMessage filePath parserPaths).
Proof.
  intros Hin. unfold noParserMessage.
  destruct parserPaths as [|q rest] eqn:E; [contradiction|]. rewrite <- E in *.
  assert (Hlen : (0 <? length parserPaths)%nat = true) by (subst; reflexivity).
  rewrite Hlen, fold_left_tried. apply Contains_app_r.
  destruct (in_split _ _ Hin) as (l1 & l2 & ->).
  rewrite flat_map_app. cbn [flat_map]. apply Contains_app_r.
  exists [LF], (flat_map (fun p => LF :: p) l2). reflexivity.
Qed.

(** C4. When the parser selection of the open command returns no parser,
    the command does not execute [vscode.openWith]: it asks for the tested
    parsers and shows one error message, which contains the base name of
    the file and every path [getTestedParserFilePaths] returned. *)
Theorem openCommand_without_parser (target : Uri) (w : World)
  (st1 st2 : ParserSelectState) (parserPaths : list jsstring) :
  ps_selectParserFile (fsPath target) None (parserSelect w) = (Return None, st1) ->
  ps_getTestedParserFilePaths st1 = (Return parserPaths, st2) ->
  exists msg events w',
    openCommand target w = (Return tt, w')
    /\ trace w' = trace w ++ events
    /\ events = [SelectParserFile (fsPath target) None;
                 GetTestedParserFilePaths;
                 ShowErrorMessage msg]
    /\ (forall cmd u viewType, ~ In (ExecuteCommand cmd u viewType) events)
    /\ Contains (basename (fsPath target)) msg
    /\ (forall parserPath, In parserPath parserPaths -> Contains parserPath msg).
Proof.
  intros Hsel Htested.
  exists (noParserMessage (fsPath target) parserPaths).
  unfold openCommand, bind, selectParserFile, getTestedParserFilePaths,
    callParserSelect, showErrorMessage, emit, record.
  cbn [parserSelect addEvents fileSystem parserFolders trace].
  rewrite Hsel. cbn [parserSelect addEvents fileSystem parserFolders trace].
  rewrite Htested. cbn [parserSelect addEvents fileSystem parserFolders trace].
  eexists _, _. split; [reflexivity|].
  unfold addEvents. cbn [trace]. rewrite <- !app_assoc. cbn [app].
  split; [reflexivity|]. split; [reflexivity|]. split.
  - intros cmd u viewType Hin. cbn [In] in Hin. intuition discriminate.
  - split; [apply noParserMessage_names_file | apply noParserMessage_names_parsers].
Qed.

(** C6. On a rename event [updateIfParserFile] is invoked, once, with a
    list that contains both the old and the new URI of every renamed file
    of the event, and nothing else. *)
Theorem onDidRenameFiles_old_and_new (files : list RenamedFile) (w : World) :
  exists merged r w',
    onDidRenameFiles files w = (r, w')
    /\ trace w' = trace w ++ [UpdateIfParserFile merged]
    /\ (forall renamedFile, In renamedFile files ->
          In (oldUri renamedFile) merged /\ In (newUri renamedFile) merged)
    /\ (forall u, In u merged ->
          exists renamedFile,
            In renamedFile files /\ (u = newUri renamedFile \/ u = oldUri renamedFile)).
Proof.
  exists (mergeRenamed files).
  unfold onDidRenameFiles, updateIfParserFile, callParserSelect.
  destruct (ps_updateIfParserFile _ _) as [r st].
  eexists r, _. split; [reflexivity|]. split; [reflexivity|].
  rewrite mergeRenamed_flat_map. split.
  - intros renamedFile Hin.
    split; apply in_flat_map; exists renamedFile; (split; [exact Hin | cbn; auto]).
  - intros u Hu. apply in_flat_map in Hu. destruct Hu as (f & Hf & Hu).
    exists f. split; [exact Hf|]. cbn [In] in Hu. intuition auto.
Qed.

Lemma getParserPaths_loop (fs : FileSystem) (folders correctFolders : list jsstring)
  (w : World) :
  fileSystem w = fs ->
  forOf folders
    (fun folder correctFolders =>
       exists_ <- existsSync folder ;;
       if negb exists_ then
         showErrorMessage (js "Settings: The path '" ++ folder ++ js "' does not exist.") ;;;
         ret correctFolders
       else
         isDir <- lstatSync_isDirectory folder ;;
         if negb isDir then
           showErrorMessage
             (js "Settings: The path '" ++ folder ++ js "' is not a directory.") ;;;
           ret correctFolders
         else ret (correctFolders ++ [folder]))
    correctFolders w
  = (Return (correctFolders ++ filter (validFolder fs) folders),
     addEvents
       (map (fun p => ShowErrorMessage (folderErrorMessage fs p))
            (filter (fun p => negb (validFolder fs p)) folders))
       w).
Proof.
  revert correctFolders w.
  induction folders as [|folder rest IH]; intros correctFolders w Hfs.
  - cbn [forOf filter map]. unfold ret. rewrite app_nil_r, addEvents_nil. reflexivity.
  - cbn [forOf]. unfold bind at 1. unfold bind at 1.
    unfold existsSync at 1. rewrite Hfs.
    assert (Hvalid : validFolder fs folder
                     = existsOnDisk fs folder && isDirectoryEntry fs folder) by reflexivity.
    assert (Hmsg : folderErrorMessage fs folder
                   = if existsOnDisk fs folder
                     then js "Settings: The path '" ++ folder ++ js "' is not a directory."
                     else js "Settings: The path '" ++ folder ++ js "' does not exist.")
      by reflexivity.
    cbn [filter]. rewrite Hvalid.
    destruct (existsOnDisk fs folder) eqn:Hex; cbn [negb andb].
    + unfold bind at 1. unfold lstatSync_isDirectory at 1. rewrite Hfs.
      unfold isDirectoryEntry.
      assert (Hentry : fs folder <> None).
      { apply (statFollow_entry fs MAX_SYMLINK_HOPS).
        unfold existsOnDisk in Hex. destruct (statFollow fs MAX_SYMLINK_HOPS folder);
          [discriminate | discriminate Hex]. }
      destruct (fs folder) as [[data| |target]|] eqn:Hent; [| | |contradiction];
        cbn [negb map]; try rewrite Hmsg.
      * unfold bind at 1, showErrorMessage, emit, ret.
        rewrite IH by exact Hfs. unfold record. rewrite addEvents_addEvents. reflexivity.
      * unfold ret at 1. rewrite IH by exact Hfs. rewrite <- app_assoc. reflexivity.
      * unfold bind at 1, showErrorMessage, emit, ret.
        rewrite IH by exact Hfs. unfold record. rewrite addEvents_addEvents. reflexivity.
    + cbn [map]. rewrite Hmsg. unfold bind at 1, showErrorMessage, emit, ret.
      rewrite IH by exact Hfs. unfold record. rewrite addEvents_addEvents. reflexivity.
Qed.

Lemma folderErrorMessage_names_path (fs : FileSystem) (p : jsstring) :
  Contains p (folderErrorMessage fs p).
Proof.
  unfold folderErrorMessage. destruct (existsOnDisk fs p); apply Contains_middle.
Qed.

(** C7. [getParserPaths] returns exactly the configured folders that exist
    on disk and are directories, in configuration order, and shows, in the
    same order, exactly one error message for every other entry, each
    naming the path it excludes. *)
Theorem getParserPaths_keeps_directories (w : World) :
  getParserPaths w
  = (Return (filter (validFolder (fileSystem w)) (parserFolders w)),
     addEvents
       (map (fun p => ShowErrorMessage (folderErrorMessage (fileSystem w) p))
            (filter (fun p => negb (validFolder (fileSystem w) p)) (parserFolders w)))
       w)
  /\ (forall p, Contains p (folderErrorMessage (fileSystem w) p)).
Proof.
  split; [|intros p; apply folderErrorMessage_names_path].
  unfold getParserPaths, bind at 1. unfold getConfiguredParserFolders at 1.
  rewrite (getParserPaths_loop (fileSystem w)) by reflexivity. reflexivity.
Qed.

End ExtensionFacts.

Lemma openCommand_without_parser_witness :
  let target := {| fsPath := js "/data/music.wav" |} in
  @ps_selectParserFile emptyCatalog (fsPath target) None (parserSelect sampleWorld)
  = (Return None, parserSelect sampleWorld)
  /\ @ps_getTestedParserFilePaths emptyCatalog (parserSelect sampleWorld)
     = (Return (parserSelect sampleWorld), parserSelect sampleWorld)
  /\ exists msg w',
       @openCommand emptyCatalog posixPath target sampleWorld = (Return tt, w')
       /\ trace w' = [SelectParserFile (fsPath target) None;
                      GetTestedParserFilePaths;
                      ShowErrorMessage msg]
       /\ Contains (js "music.wav") msg
       /\ Contains (js "/parsers/wav.js") msg
       /\ Contains (js "/parsers/bmp.js") msg.
Proof.
  cbv zeta. split; [reflexivity|]. split; [reflexivity|].
  destruct (@openCommand_without_parser emptyCatalog posixPath
              {| fsPath := js "/data/music.wav" |} sampleWorld
              (parserSelect sampleWorld) (parserSelect sampleWorld)
              (parserSelect sampleWorld) eq_refl eq_refl)
    as (msg & events & w' & Hrun & Htrace & -> & _ & Hfile & Hparsers).
  exists msg, w'. split; [exact Hrun|]. split; [exact Htrace|].
  split; [exact Hfile|].
  split; apply Hparsers; cbn; auto.
Defined.

Lemma onDidRenameFiles_old_and_new_witness :
  let renamed := {| oldUri := {| fsPath := js "/parsers/a.js" |};
                    newUri := {| fsPath := js "/parsers/b.js" |} |} in
  In renamed [renamed]
  /\ exists merged r w',
       @onDidRenameFiles emptyCatalog [renamed] sampleWorld = (r, w')
       /\ trace w' = trace sampleWorld ++ [UpdateIfParserFile merged]
       /\ In (oldUri renamed) merged
       /\ In (newUri renamed) merged.
Proof.
  cbv zeta. split; [left; reflexivity|].
  destruct (@onDidRenameFiles_old_and_new emptyCatalog
              [{| oldUri := {| fsPath := js "/parsers/a.js" |};
                  newUri := {| fsPath := js "/parsers/b.js" |} |}] sampleWorld)
    as (merged & r & w' & Hrun & Htrace & Hall & _).
  exists merged, r, w'. split; [exact Hrun|]. split; [exact Htrace|].
  apply Hall. left. reflexivity.
Defined.

Example getParserPaths_sample :
  @getParserPaths emptyCatalog sampleWorld
  = (Return [js "/parsers"],
     addEvents
       [ShowErrorMessage (js "Settings: The path '/missing' does not exist.");
        ShowErrorMessage (js "Settings: The path '/parsers/wav.js' is not a directory.");
        ShowErrorMessage (js "Settings: The path '/link' is not a directory.")]
       sampleWorld).
Proof. reflexivity. Qed.

(** ** Node's [path.extname] meets its contract *)

Lemma slice_shape (l : jsstring) (a b : Z) :
  0 <= a < b -> b <= Z.of_nat (length l) ->
  exists e,
    slice l a b = nth (Z.to_nat a) l 0%N :: e
    /\ forall x, In x e -> exists k : nat, a < Z.of_nat k < b /\ nth k l 0%N = x.
Proof.
  intros Hab Hb. unfold slice.
  set (a' := Z.to_nat a). set (m := Z.to_nat (b - a)).
  assert (Hlen : (a' + m <= length l)%nat) by (subst a' m; lia).
  assert (Hm : (1 <= m)%nat) by (subst m; lia).
  assert (Hmz : Z.of_nat m = b - a) by (subst m; lia).
  assert (Haz : Z.of_nat a' = a) by (subst a'; lia).
  clearbody m a'.
  pose proof (length_skipn a' l) as Hskip.
  pose proof (nth_skipn a' l) as Hnth.
  destruct (skipn a' l) as [|h t] eqn:E; [cbn [length] in Hskip; lia|].
  destruct m as [|m']; [lia|]. cbn [firstn].
  exists (firstn m' t). split.
  - f_equal. specialize (Hnth 0%nat 0%N). cbn [nth] in Hnth.
    rewrite Nat.add_0_r in Hnth. exact Hnth.
  - intros x Hin. destruct (In_nth _ _ 0%N Hin) as (n & Hn & Hx).
    rewrite length_firstn in Hn. rewrite nth_firstn in Hx.
    destruct (Nat.ltb_spec n m'); [|lia].
    exists (a' + S n)%nat. split; [lia|].
    rewrite <- Hnth. cbn [nth]. exact Hx.
Qed.

Section ExtnameLoop.
Variable path : jsstring.

Lemma ExtInv_final (n : nat) (st : NodePath.ExtState) : ExtInv path n st -> ExtFinal path st.
Proof.
  intros [[_ H]|[[H _]|(H1 & H2 & H3 & H4)]]; [left; exact H | left; exact H | right].
  repeat split; try assumption; lia.
Qed.

Lemma ExtInv_skip (i : nat) (st : NodePath.ExtState) :
  nth i path 0%N <> CHAR_DOT -> ExtInv path (S i) st -> ExtInv path i st.
Proof.
  intros Hnot [H|[(H1 & H2 & H3)|(H1 & H2 & H3 & H4)]].
  - left. exact H.
  - right. left. split; [exact H1|]. split; [lia|].
    intros k Hk Hlt. destruct (Nat.eq_dec k i) as [->|Hne]; [exact Hnot|].
    apply H3; [lia | exact Hlt].
  - right. right. repeat split; try assumption; lia.
Qed.

Lemma ExtInv_step (i : nat) (st : NodePath.ExtState) :
  (i < length path)%nat ->
  ExtInv path (S i) st -> ExtInv path i (NodePath.extStep i (nth i path 0%N) st).
Proof.
  intros Hi Hinv. destruct st as [sd sp en ms pd].
  unfold ExtInv, NodePath.extStep in *.
  cbn [NodePath.startDot NodePath.end_ NodePath.preDotState NodePath.startPart
       NodePath.matchedSlash] in *.
  destruct (N.eqb_spec (nth i path 0%N) CHAR_DOT) as [Hdot|Hnot];
    destruct (Z.eqb_spec en (-1)) as [He|He];
    cbn [NodePath.startDot NodePath.end_ NodePath.preDotState NodePath.startPart
         NodePath.matchedSlash];
    destruct (Z.eqb_spec sd (-1)) as [Hs|Hs];
    cbn [negb NodePath.startDot NodePath.end_ NodePath.preDotState NodePath.startPart
         NodePath.matchedSlash];
    try (destruct (negb (pd =? 1));
         cbn [NodePath.startDot NodePath.end_ NodePath.preDotState NodePath.startPart
              NodePath.matchedSlash]);
    destruct Hinv as [[He' Hs']|[(Hs' & Hb & Hno)|(H1 & H2 & H3 & H4)]];
    try lia.
  all: try (right; right; rewrite ?Nat2Z.id;
            repeat split; try assumption; try lia;
            intros k Hk; first [lia | apply Hno; lia | apply H4; lia]).
  all: try (right; left; split; [assumption|]; split; [lia|];
            intros k Hk Hlt; destruct (Nat.eq_dec k i) as [->|Hne];
            [exact Hnot | first [lia | apply Hno; [lia | exact Hlt]]]).
Qed.

Lemma extnameLoop_final (n : nat) (st : NodePath.ExtState) :
  (n <= length path)%nat -> ExtInv path n st -> ExtFinal path (NodePath.extnameLoop path n st).
Proof.
  revert st. induction n as [|i IH]; intros st Hn Hinv.
  - cbn [NodePath.extnameLoop]. exact (ExtInv_final 0 st Hinv).
  - cbn [NodePath.extnameLoop]. cbv zeta.
    destruct (N.eqb_spec (nth i path 0%N) CHAR_FORWARD_SLASH) as [Hslash|Hnot].
    + destruct (negb (NodePath.matchedSlash st)).
      * pose proof (ExtInv_final (S i) st Hinv) as Hfin.
        unfold ExtFinal in *. cbn [NodePath.startDot NodePath.end_]. exact Hfin.
      * apply IH; [lia|]. apply ExtInv_skip; [|exact Hinv].
        rewrite Hslash. discriminate.
    + apply IH; [lia|]. apply ExtInv_step; [lia | exact Hinv].
Qed.

End ExtnameLoop.

Lemma posix_extname_contract : ExtnameContract posixPath.
Proof.
  intros p. cbn [extname posixPath]. unfold NodePath.extname. cbv zeta.
  set (st := NodePath.extnameLoop p (length p) _).
  assert (Hfin : ExtFinal p st).
  { subst st. apply extnameLoop_final; [lia|]. left. split; reflexivity. }
  destruct (Z.eqb_spec (NodePath.startDot st) (-1)) as [Hsd|Hsd];
    [left; reflexivity|].
  cbn [orb].
  destruct ((NodePath.end_ st =? -1) || (NodePath.preDotState st =? 0)
            || (NodePath.preDotState st =? 1)
               && (NodePath.startDot st =? NodePath.end_ st - 1)
               && (NodePath.startDot st =? NodePath.startPart st + 1));
    [left; reflexivity | right].
  destruct Hfin as [Hneg|(H0 & Hb & Hdot & Hno)]; [contradiction|].
  destruct (slice_shape p (NodePath.startDot st) (NodePath.end_ st)) as (e & He & Hin);
    [lia | lia |].
  exists e. rewrite He, Hdot. split; [reflexivity|].
  intros Hd. destruct (Hin _ Hd) as (k & Hk & Hnth).
  exact (Hno k Hk Hnth).
Qed.

(** ** editorprovider.ts: [openCustomDocument] *)

Section OpenCustomDocumentFacts.
Context {PSM : ParserSelectModule} {PM : PathModule}.

Lemma openCustomDocument_run (target : Uri) (w : World) :
  let call := SelectParserFile (fileExtOf (fsPath target)) (Some (fsPath target)) in
  openCustomDocument target w
  = match ps_selectParserFile (fileExtOf (fsPath target)) (Some (fsPath target))
            (parserSelect w) with
    | (Return (Some p), st) =>
        (Return (Some {| uri := target; parser := p |}),
         {| parserSelect := st; fileSystem := fileSystem w;
            parserFolders := parserFolders w; trace := trace w ++ [call] |})
    | (Return None, st) =>
        (Return None,
         {| parserSelect := st; fileSystem := fileSystem w;
            parserFolders := parserFolders w; trace := trace w ++ [call] |})
    | (Throw e, st) =>
        (Return None,
         {| parserSelect := st; fileSystem := fileSystem w;
            parserFolders := parserFolders w;
            trace := (trace w ++ [call]) ++ [ConsoleLog (LogError e)] |})
    end.
Proof.
  cbv zeta. unfold openCustomDocument, tryCatch, bind, selectParserFile, callParserSelect,
    record, addEvents.
  cbn [parserSelect fileSystem parserFolders trace].
  destruct (ps_selectParserFile _ _ _) as [[[p|]|e] st]; reflexivity.
Qed.

(** C8. [openCustomDocument] never throws: for every URI and whatever the
    parser selection does, it returns a document whose [uri] is the opened
    file and whose [parser] is the selected parser, or it returns
    [undefined], which it does when no parser matches and when the selection
    throws. *)
Theorem openCustomDocument_never_throws (target : Uri) (w : World) :
  exists result w',
    openCustomDocument target w = (Return result, w')
    /\ match ps_selectParserFile (fileExtOf (fsPath target)) (Some (fsPath target))
               (parserSelect w) with
       | (Return (Some p), _) => result = Some {| uri := target; parser := p |}
       | (Return None, _) => result = None
       | (Throw _, _) => result = None
       end.
Proof.
  rewrite openCustomDocument_run. cbv zeta.
  destruct (ps_selectParserFile _ _ _) as [[[p|]|e] st];
    eexists _, _; split; reflexivity.
Qed.

Lemma fileExtOf_cases (filePath : jsstring) :
  (extname filePath = [] -> fileExtOf filePath = [])
  /\ (forall c e, extname filePath = c :: e -> fileExtOf filePath = e).
Proof.
  unfold fileExtOf. split.
  - intros ->. reflexivity.
  - intros c e ->. reflexivity.
Qed.

(** C10. Under Node's contract for [path.extname], the extension
    [openCustomDocument] hands to the parser selection, in its only call of
    it, never starts with a dot: it is the extension of the path without
    its leading dot when the path has an extension, and the empty string
    when it has none. *)
Theorem openCustomDocument_extension_without_dot (target : Uri) (w : World) :
  ExtnameContract PM ->
  exists fileExt r w' later,
    openCustomDocument target w = (r, w')
    /\ trace w' = trace w ++ SelectParserFile fileExt (Some (fsPath target)) :: later
    /\ (forall arg1 arg2, ~ In (SelectParserFile arg1 arg2) later)
    /\ hd_error fileExt <> Some CHAR_DOT
    /\ (extname (fsPath target) <> [] -> extname (fsPath target) = CHAR_DOT :: fileExt)
    /\ (extname (fsPath target) = [] -> fileExt = []).
Proof.
  intros Hcontract. exists (fileExtOf (fsPath target)).
  assert (Hrun : exists r w' later,
             openCustomDocument target w = (r, w')
             /\ trace w' = trace w
                           ++ SelectParserFile (fileExtOf (fsPath target))
                                (Some (fsPath target)) :: later
             /\ (forall arg1 arg2, ~ In (SelectParserFile arg1 arg2) later)).
  { rewrite openCustomDocument_run. cbv zeta.
    destruct (ps_selectParserFile _ _ _) as [[[p|]|e] st].
    - eexists _, _, []. split; [reflexivity|]. split; [reflexivity | intros ? ? []].
    - eexists _, _, []. split; [reflexivity|]. split; [reflexivity | intros ? ? []].
    - eexists _, _, [ConsoleLog (LogError e)]. split; [reflexivity|].
      cbn [trace]. rewrite <- app_assoc. split; [reflexivity|].
      intros ? ? [H|[]]. discriminate H. }
  destruct Hrun as (r & w' & later & Hrun & Htrace & Honly).
  exists r, w', later. split; [exact Hrun|]. split; [exact Htrace|]. split; [exact Honly|].
  destruct (fileExtOf_cases (fsPath target)) as [Hnone Hsome].
  destruct (Hcontract (fsPath target)) as [Hempty|(e & Hext & Hnodot)].
  - rewrite Hempty, (Hnone Hempty). repeat split; [discriminate | congruence].
  - rewrite Hext, (Hsome _ _ Hext). split; [|split; [reflexivity | discriminate]].
    destruct e as [|c e']; cbn [hd_error]; [discriminate|].
    intros [= ->]. apply Hnodot. left. reflexivity.
Qed.

End OpenCustomDocumentFacts.

Lemma openCustomDocument_extension_without_dot_witness :
  let target := {| fsPath := js "/data/music.wav" |} in
  ExtnameContract posixPath
  /\ exists r w' later,
       @openCustomDocument emptyCatalog posixPath target sampleWorld = (r, w')
       /\ trace w'
          = trace sampleWorld ++ SelectParserFile (js "wav") (Some (fsPath target)) :: later.
Proof.
  cbv zeta. split; [exact posix_extname_contract|].
  destruct (@openCustomDocument_extension_without_dot emptyCatalog posixPath
              {| fsPath := js "/data/music.wav" |} sampleWorld posix_extname_contract)
    as (fileExt & r & w' & later & Hrun & Htrace & _ & _ & Hext & _).
  assert (Hwav : fileExt = js "wav").
  { assert (H : @extname posixPath (js "/data/music.wav") <> []) by discriminate.
    specialize (Hext H). vm_compute in Hext. injection Hext as <-. reflexivity. }
  subst fileExt. exists r, w', later. split; [exact Hrun | exact Htrace].
Defined.

Example openCustomDocument_sample :
  @openCustomDocument emptyCatalog posixPath {| fsPath := js "/data/archive.tar.gz" |}
    sampleWorld
  = (Return None,
     addEvents [SelectParserFile (js "gz") (Some (js "/data/archive.tar.gz"))] sampleWorld).
Proof. reflexivity. Qed.

Example fileExtOf_samples :
  map (@fileExtOf posixPath)
    [js "/data/music.wav"; js "/data/README"; js "/data/.profile"; js "/data/trailing.";
     js "/data.d/file"; js "a..b"]
  = [js "wav"; []; []; []; []; js "b"].
Proof. reflexivity. Qed.

(* ================================================================== *)
(** * Part III: further properties of the two files                   *)
(* ================================================================== *)

(** ** extension.ts: the accumulation reads its window only *)

Lemma accumulateLoop_window (T : Type) (tadd tsub tmul : T -> T -> T)
  (tconst : Z -> T) (telem : option byte -> T)
  (buffer1 buffer2 : list byte) (offset1 offset2 remaining i : nat) (value factor : T) :
  (forall j, (j < remaining)%nat ->
             nth_error buffer1 (offset1 + (i + j)) = nth_error buffer2 (offset2 + (i + j))) ->
  accumulateLoop T tadd tsub tmul tconst telem buffer1 offset1 remaining i value factor
  = accumulateLoop T tadd tsub tmul tconst telem buffer2 offset2 remaining i value factor.
Proof.
  revert i value factor. induction remaining as [|remaining IH]; intros i value factor Hsame.
  - reflexivity.
  - cbn [accumulateLoop].
    pose proof (Hsame 0%nat ltac:(lia)) as H0. rewrite Nat.add_0_r in H0. rewrite H0.
    apply IH. intros j Hj. specialize (Hsame (S j) ltac:(lia)).
    replace (S i + j)%nat with (i + S j)%nat by lia. exact Hsame.
Qed.

Lemma nth_error_window (before bytes after : list byte) (j : nat) :
  (j < length bytes)%nat ->
  nth_error (before ++ bytes ++ after) (length before + j) = nth_error bytes j.
Proof.
  intros Hj. rewrite nth_error_app2 by lia.
  replace (length before + j - length before)%nat with j by lia.
  apply nth_error_app1. exact Hj.
Qed.

(** X1. The value the accumulation yields depends on the [lastSize] bytes
    from [lastOffset] on and on nothing else in the buffer: two buffers
    that hold the same bytes in their windows give the same value, rounded
    or not. *)
Theorem signedMagnitude_reads_only_window (before before' bytes after after' : list byte) :
  signedMagnitude (before ++ bytes ++ after) (length before) (length bytes)
  = signedMagnitude (before' ++ bytes ++ after') (length before') (length bytes).
Proof.
  unfold signedMagnitude, accumulateWith.
  rewrite (accumulateLoop_window number add sub mul Num elemNumber
             (before ++ bytes ++ after) (before' ++ bytes ++ after')
             (length before) (length before')); [reflexivity|].
  intros j Hj. cbn [Nat.add]. rewrite !nth_error_window by exact Hj. reflexivity.
Qed.

Lemma accumulateLoop_NaN (dataBuffer : list byte) (lastOffset remaining i : nat)
  (factor : number) :
  fst (accumulateLoop number add sub mul Num elemNumber dataBuffer lastOffset
         remaining i NaN factor) = NaN.
Proof.
  revert i factor. induction remaining as [|remaining IH]; intros i factor.
  - reflexivity.
  - cbn [accumulateLoop]. cbn [add]. apply IH.
Qed.

Lemma add_NaN_r (x : number) : add x NaN = NaN.
Proof. destruct x; reflexivity. Qed.

Lemma mul_NaN_r (x : number) : mul x NaN = NaN.
Proof. destruct x; reflexivity. Qed.

Lemma accumulateLoop_undefined (dataBuffer : list byte) (lastOffset remaining i : nat)
  (value factor : number) :
  (0 < remaining)%nat ->
  (length dataBuffer < lastOffset + i + remaining)%nat ->
  fst (accumulateLoop number add sub mul Num elemNumber dataBuffer lastOffset
         remaining i value factor) = NaN.
Proof.
  revert i value factor.
  induction remaining as [|remaining IH]; intros i value factor Hpos Hout; [lia|].
  cbn [accumulateLoop].
  destruct (nth_error dataBuffer (lastOffset + i)) as [b|] eqn:E.
  - apply IH.
    + assert (lastOffset + i < length dataBuffer)%nat
        by (apply nth_error_Some; congruence). lia.
    + lia.
  - cbn [elemNumber sub neg add]. rewrite mul_NaN_r, add_NaN_r.
    apply accumulateLoop_NaN.
Qed.

(** X2. When the window of [lastSize >= 1] bytes from [lastOffset] runs
    past the end of the buffer, the elements read there are [undefined] and
    the accumulated value is NaN: no error is raised and no partial value
    is kept. *)
Theorem signedMagnitude_past_the_end (dataBuffer : list byte) (lastOffset lastSize : nat) :
  (0 < lastSize)%nat ->
  (length dataBuffer < lastOffset + lastSize)%nat ->
  signedMagnitude dataBuffer lastOffset lastSize = NaN.
Proof.
  intros Hpos Hout. unfold signedMagnitude, accumulateWith.
  pose proof (accumulateLoop_undefined dataBuffer lastOffset lastSize 0 (Num 0) (Num 1)
                Hpos ltac:(lia)) as H.
  destruct (accumulateLoop _ _ _ _ _ _ _ _ _ _ _ _) as [value factor].
  cbn [fst] in H. subst value. reflexivity.
Qed.

Lemma signedMagnitude_past_the_end_witness :
  (0 < 8)%nat
  /\ (length activate_dataBuffer < 1 + 8)%nat
  /\ signedMagnitude activate_dataBuffer 1 8 = NaN.
Proof.
  assert (H1 : (0 < 8)%nat) by lia.
  assert (H2 : (length activate_dataBuffer < 1 + 8)%nat) by (cbn; lia).
  split; [exact H1|]. split; [exact H2|].
  exact (signedMagnitude_past_the_end activate_dataBuffer 1 8 H1 H2).
Defined.

(** ** editorprovider.ts: which match gives the line *)

(** X4. When the second line of the failure text holds several places
    where [>:] is followed by digits, the greedy [.*] makes the last of
    them (on a line without line terminators before it) the one whose
    digits give the diagnostic line. *)
Theorem diagnosticLine_takes_last_match (stacks : list jsstring)
  (before digits after : jsstring) :
  nth_error stacks 1 = Some (before ++ CHAR_GT :: CHAR_COLON :: digits ++ after) ->
  forallb (fun c => negb (isLineTerminator c)) before = true ->
  DigitRun digits after ->
  ~ MatchesPattern after ->
  diagnosticLine stacks = sub (parseInt digits) (Num 4).
Proof.
  intros Hsecond Hbefore Hrun Hno. unfold diagnosticLine.
  rewrite Hsecond. cbn [toStringOrUndefined].
  rewrite (regexExec_of_matchDotStar _ digits
             (matchDotStar_rightmost before digits after Hbefore Hrun Hno)).
  reflexivity.
Qed.

Lemma diagnosticLine_takes_last_match_witness :
  let before := js "    at eval (eval at run (<anonymous>:10:2), <anonymous" in
  let stacks := [js "Error: boom"; before ++ CHAR_GT :: CHAR_COLON :: js "7" ++ js ":5)"] in
  MatchesPattern before
  /\ diagnosticLine stacks = Num 3.
Proof.
  cbv zeta. split.
  - exists (js "    at eval (eval at run (<anonymous"), 49%N, (js "0:2), <anonymous").
    split; reflexivity.
  - rewrite (diagnosticLine_takes_last_match
               [js "Error: boom";
                js "    at eval (eval at run (<anonymous>:10:2), <anonymous"
                ++ CHAR_GT :: CHAR_COLON :: js "7" ++ js ":5)"]
               (js "    at eval (eval at run (<anonymous>:10:2), <anonymous")
               (js "7") (js ":5)")).
    + reflexivity.
    + reflexivity.
    + reflexivity.
    + split; [discriminate|]. split; [repeat constructor | reflexivity].
    + apply regexExec_None_iff. reflexivity.
Defined.

(** ** extension.ts: the open command when a parser is found or the
    selection fails *)

Section OpenCommandFacts.
Context {PSM : ParserSelectModule} {PM : PathModule}.

(** X5. When the parser selection finds a parser, the open command opens
    the file with the viewer: it executes [vscode.openWith] on the same URI
    with the view type [binary-file-viewer.viewer], and neither asks for
    the tested parsers nor shows an error message. *)
Theorem openCommand_with_parser (target : Uri) (w : World) (p : ParserInfo)
  (st1 : ParserSelectState) :
  ps_selectParserFile (fsPath target) None (parserSelect w) = (Return (Some p), st1) ->
  openCommand target w
  = (Return tt,
     {| parserSelect := st1; fileSystem := fileSystem w;
        parserFolders := parserFolders w;
        trace := trace w
                 ++ [SelectParserFile (fsPath target) None;
                     ExecuteCommand (js "vscode.openWith") target
                       (js "binary-file-viewer.viewer")] |}).
Proof.
  intros Hsel.
  unfold openCommand, bind, selectParserFile, callParserSelect, executeCommand, emit,
    record, addEvents.
  cbn [parserSelect fileSystem parserFolders trace].
  rewrite Hsel. cbn [parserSelect fileSystem parserFolders trace].
  rewrite <- app_assoc. reflexivity.
Qed.

(** X6. The open command does not catch what the parser selection throws:
    the exception leaves the handler, and then nothing is shown and nothing
    is opened. *)
Theorem openCommand_selection_throws (target : Uri) (w : World) (e : exn)
  (st1 : ParserSelectState) :
  ps_selectParserFile (fsPath target) None (parserSelect w) = (Throw e, st1) ->
  openCommand target w
  = (Throw e,
     {| parserSelect := st1; fileSystem := fileSystem w;
        parserFolders := parserFolders w;
        trace := trace w ++ [SelectParserFile (fsPath target) None] |}).
Proof.
  intros Hsel.
  unfold openCommand, bind, selectParserFile, callParserSelect, record, addEvents.
  cbn [parserSelect fileSystem parserFolders trace].
  rewrite Hsel. reflexivity.
Qed.

End OpenCommandFacts.

Lemma openCommand_with_parser_witness :
  let target := {| fsPath := js "/data/music.wav" |} in
  @ps_selectParserFile wavCatalog (fsPath target) None (parserSelect wavWorld)
  = (Return (Some sampleParser), [])
  /\ @openCommand wavCatalog posixPath target wavWorld
     = (Return tt,
        @Build_World wavCatalog [] sampleFileSystem [js "/parsers"; js "/link"]
          [SelectParserFile (js "/data/music.wav") None;
           ExecuteCommand (js "vscode.openWith") target (js "binary-file-viewer.viewer")]).
Proof.
  cbv zeta. split; [reflexivity|].
  exact (@openCommand_with_parser wavCatalog posixPath
           {| fsPath := js "/data/music.wav" |} wavWorld sampleParser [] eq_refl).
Defined.

Lemma openCommand_selection_throws_witness :
  let target := {| fsPath := js "/data/broken" |} in
  @ps_selectParserFile wavCatalog (fsPath target) None (parserSelect wavWorld)
  = (Throw (Exn (js "EACCES: permission denied")), [])
  /\ @openCommand wavCatalog posixPath target wavWorld
     = (Throw (Exn (js "EACCES: permission denied")),
        @Build_World wavCatalog [] sampleFileSystem [js "/parsers"; js "/link"]
          [SelectParserFile (js "/data/broken") None]).
Proof.
  cbv zeta. split; [reflexivity|].
  exact (@openCommand_selection_throws wavCatalog posixPath
           {| fsPath := js "/data/broken" |} wavWorld
           (Exn (js "EACCES: permission denied")) [] eq_refl).
Defined.

(** ** extension.ts: the lines of the error message *)

Lemma split_no_separator (line : jsstring) :
  ~ In LF line -> split LF line = [line].
Proof.
  induction line as [|c r IH]; intros Hno; cbn [split]; [reflexivity|].
  destruct (N.eqb_spec c LF) as [->|_]; [exfalso; apply Hno; left; reflexivity|].
  rewrite IH by (intros H; apply Hno; right; exact H). reflexivity.
Qed.

Lemma split_line (line rest : jsstring) :
  ~ In LF line -> split LF (line ++ LF :: rest) = line :: split LF rest.
Proof.
  induction line as [|c r IH]; intros Hno; cbn [app split].
  - rewrite N.eqb_refl. reflexivity.
  - destruct (N.eqb_spec c LF) as [->|_]; [exfalso; apply Hno; left; reflexivity|].
    rewrite IH by (intros H; apply Hno; right; exact H). reflexivity.
Qed.

Lemma split_lines (lines : list jsstring) (lastLine : jsstring) :
  Forall (fun l => ~ In LF l) lines -> ~ In LF lastLine ->
  split LF (lastLine ++ flat_map (fun l => LF :: l) lines) = lastLine :: lines.
Proof.
  intros Hall. revert lastLine.
  induction Hall as [|l lines Hl _ IH]; intros lastLine Hlast; cbn [flat_map].
  - rewrite app_nil_r. apply split_no_separator. exact Hlast.
  - cbn [app]. rewrite split_line by exact Hlast. rewrite IH by exact Hl. reflexivity.
Qed.

Lemma js_no_LF (literal : string) :
  forallb (fun c => negb (c =? LF)%N) (js literal) = true -> ~ In LF (js literal).
Proof.
  intros H Hin. rewrite forallb_forall in H. specialize (H LF Hin).
  rewrite N.eqb_refl in H. discriminate.
Qed.

Section MessageFacts.
Context {PM : PathModule}.

(** X7. When neither the base name of the file nor a tested parser path
    holds a line feed, the error message of the open command reads, line by
    line: the sentence naming the file; then, if parsers were tested, the
    line [Tried parser(s): ] and the tested paths, one per line in the order
    they were reported; with no tested parsers the sentence is followed by
    one empty line only. *)
Theorem noParserMessage_lines (filePath : jsstring) (parserPaths : list jsstring) :
  ~ In LF (basename filePath) ->
  Forall (fun parserPath => ~ In LF parserPath) parserPaths ->
  split LF (noParserMessage filePath parserPaths)
  = (js "Binary-File-Viewer: No parser available for '" ++ basename filePath ++ js "'.")
    :: match parserPaths with
       | [] => [[]]
       | _ :: _ => js "Tried parser(s): " :: parserPaths
       end.
Proof.
  intros Hbase Hpaths. unfold noParserMessage.
  assert (Hhead : ~ In LF (js "Binary-File-Viewer: No parser available for '"
                           ++ basename filePath ++ js "'.")).
  { intros Hin. apply in_app_or in Hin. destruct Hin as [Hin|Hin].
    - revert Hin. apply js_no_LF. reflexivity.
    - apply in_app_or in Hin. destruct Hin as [Hin|Hin]; [exact (Hbase Hin)|].
      revert Hin. apply js_no_LF. reflexivity. }
  assert (Hassoc : forall tail,
             (js "Binary-File-Viewer: No parser available for '" ++ basename filePath
              ++ js "'." ++ [LF]) ++ tail
             = (js "Binary-File-Viewer: No parser available for '" ++ basename filePath
                ++ js "'.") ++ LF :: tail).
  { intros tail. rewrite <- !app_assoc. reflexivity. }
  destruct parserPaths as [|q rest].
  - cbn [length Nat.ltb Nat.leb].
    rewrite <- (app_nil_r (_ ++ _ ++ _ ++ [LF])), Hassoc.
    rewrite split_line by exact Hhead. reflexivity.
  - cbn [length Nat.ltb Nat.leb]. rewrite fold_left_tried.
    rewrite <- app_assoc, Hassoc, split_line by exact Hhead.
    rewrite split_lines; [reflexivity | exact Hpaths |].
    apply js_no_LF. reflexivity.
Qed.

End MessageFacts.

Lemma noParserMessage_lines_witness :
  ~ In LF (@basename posixPath (js "/data/music.wav"))
  /\ Forall (fun parserPath => ~ In LF parserPath) [js "/parsers/wav.js"; js "/parsers/bmp.js"]
  /\ split LF (@noParserMessage posixPath (js "/data/music.wav")
                 [js "/parsers/wav.js"; js "/parsers/bmp.js"])
     = [js "Binary-File-Viewer: No parser available for 'music.wav'.";
        js "Tried parser(s): "; js "/parsers/wav.js"; js "/parsers/bmp.js"].
Proof.
  assert (H1 : ~ In LF (@basename posixPath (js "/data/music.wav")))
    by (apply (js_no_LF "music.wav"); reflexivity).
  assert (H2 : Forall (fun parserPath => ~ In LF parserPath)
                 [js "/parsers/wav.js"; js "/parsers/bmp.js"]).
  { repeat constructor; apply js_no_LF; reflexivity. }
  split; [exact H1|]. split; [exact H2|].
  exact (@noParserMessage_lines posixPath (js "/data/music.wav")
           [js "/parsers/wav.js"; js "/parsers/bmp.js"] H1 H2).
Defined.

(** ** extension.ts: validation of the configured folders, and its callers *)

Lemma filter_idempotent (A : Type) (f : A -> bool) (l : list A) :
  filter f (filter f l) = filter f l.
Proof.
  induction l as [|x l IH]; cbn [filter]; [reflexivity|].
  destruct (f x) eqn:E; cbn [filter]; [rewrite E, IH; reflexivity | exact IH].
Qed.

Lemma filter_negb_filter (A : Type) (f : A -> bool) (l : list A) :
  filter (fun x => negb (f x)) (filter f l) = [].
Proof.
  induction l as [|x l IH]; cbn [filter]; [reflexivity|].
  destruct (f x) eqn:E; cbn [filter]; [rewrite E; cbn [negb]; exact IH | exact IH].
Qed.

Lemma validFolder_directory (fs : FileSystem) (p : jsstring) :
  validFolder fs p = true <-> fs p = Some Directory.
Proof.
  unfold validFolder, existsOnDisk, isDirectoryEntry, MAX_SYMLINK_HOPS.
  cbn [statFollow]. split.
  - intros H. apply andb_true_iff in H. destruct H as [_ H].
    destruct (fs p) as [[| |]|]; congruence.
  - intros ->. reflexivity.
Qed.

(** [stat] walks a chain of links to its end when the chain is no longer
    than the number of links it is willing to follow. *)
Lemma statFollow_chain (fs : FileSystem) (p : jsstring) (n : nat) (final : jsstring)
  (hops : nat) :
  LinkChain fs p n final ->
  (n <= hops)%nat ->
  (forall t, fs final <> Some (SymbolicLink t)) ->
  statFollow fs hops p = fs final.
Proof.
  intros Hchain. revert hops.
  induction Hchain as [p | p target final n Hp _ IH]; intros hops Hn Hend.
  - destruct hops; cbn [statFollow];
      destruct (fs p) as [[d| |t]|]; try reflexivity;
      exfalso; exact (Hend t eq_refl).
  - destruct hops as [|hops]; [lia|].
    cbn [statFollow]. rewrite Hp. apply IH; [lia | exact Hend].
Qed.

Section FolderFacts.
Context {PSM : ParserSelectModule} {PM : PathModule}.

(** The messages [getParserPaths] shows for the folders it drops. *)
Lemma getParserPaths_run (w : World) :
  getParserPaths w
  = (Return (filter (validFolder (fileSystem w)) (parserFolders w)),
     addEvents
       (map (fun p => ShowErrorMessage (folderErrorMessage (fileSystem w) p))
            (filter (fun p => negb (validFolder (fileSystem w) p)) (parserFolders w)))
       w).
Proof.
  unfold getParserPaths, bind at 1. unfold getConfiguredParserFolders at 1.
  rewrite (getParserPaths_loop (fileSystem w)) by reflexivity. reflexivity.
Qed.

(** X8. A configured path whose entry, as [lstat] reports it for the path
    as written, is a symbolic link is not accepted, even when the link
    leads to a directory, directly or through further links, because the
    link itself is examined: it is left out of the result and an error
    message is shown for it.  The message says that the path is not a
    directory when the chain of links, of at most 40, ends at a directory
    or at a file, and that it does not exist when the chain ends at a
    missing path. *)
Theorem getParserPaths_rejects_symbolic_links (w : World) (folder target : jsstring) :
  In folder (parserFolders w) ->
  fileSystem w folder = Some (SymbolicLink target) ->
  exists folders w',
    getParserPaths w = (Return folders, w')
    /\ ~ In folder folders
    /\ In (ShowErrorMessage (folderErrorMessage (fileSystem w) folder)) (trace w')
    /\ (fileSystem w target = Some Directory ->
        folderErrorMessage (fileSystem w) folder
        = js "Settings: The path '" ++ folder ++ js "' is not a directory.")
    /\ (fileSystem w target = None ->
        folderErrorMessage (fileSystem w) folder
        = js "Settings: The path '" ++ folder ++ js "' does not exist.")
    /\ (forall (n : nat) (final : jsstring) (entry : FileEntry),
          LinkChain (fileSystem w) folder n final ->
          (n <= MAX_SYMLINK_HOPS)%nat ->
          fileSystem w final = Some entry ->
          (forall t, entry <> SymbolicLink t) ->
          folderErrorMessage (fileSystem w) folder
          = js "Settings: The path '" ++ folder ++ js "' is not a directory.")
    /\ (forall (n : nat) (final : jsstring),
          LinkChain (fileSystem w) folder n final ->
          (n <= MAX_SYMLINK_HOPS)%nat ->
          fileSystem w final = None ->
          folderErrorMessage (fileSystem w) folder
          = js "Settings: The path '" ++ folder ++ js "' does not exist.").
Proof.
  intros Hin Hlink. rewrite getParserPaths_run. eexists _, _. split; [reflexivity|].
  assert (Hinvalid : validFolder (fileSystem w) folder = false).
  { destruct (validFolder (fileSystem w) folder) eqn:E; [|reflexivity].
    apply validFolder_directory in E. congruence. }
  split; [|split; [|split; [|split; [|split]]]].
  - intros H. apply filter_In in H. destruct H as [_ H]. congruence.
  - unfold addEvents. cbn [trace]. apply in_or_app. right.
    apply in_map_iff. exists folder. split; [reflexivity|].
    apply filter_In. split; [exact Hin|]. rewrite Hinvalid. reflexivity.
  - intros Htarget. unfold folderErrorMessage, existsOnDisk, MAX_SYMLINK_HOPS.
    cbn [statFollow]. rewrite Hlink. cbn [statFollow]. rewrite Htarget. reflexivity.
  - intros Htarget. unfold folderErrorMessage, existsOnDisk, MAX_SYMLINK_HOPS.
    cbn [statFollow]. rewrite Hlink. cbn [statFollow]. rewrite Htarget. reflexivity.
  - intros n final entry Hchain Hn Hfinal Hentry.
    unfold folderErrorMessage, existsOnDisk.
    rewrite (statFollow_chain (fileSystem w) folder n final MAX_SYMLINK_HOPS Hchain Hn).
    + rewrite Hfinal. reflexivity.
    + intros t Ht. rewrite Hfinal in Ht. injection Ht as Ht. exact (Hentry t Ht).
  - intros n final Hchain Hn Hfinal.
    unfold folderErrorMessage, existsOnDisk.
    rewrite (statFollow_chain (fileSystem w) folder n final MAX_SYMLINK_HOPS Hchain Hn).
    + rewrite Hfinal. reflexivity.
    + intros t Ht. rewrite Hfinal in Ht. discriminate Ht.
Qed.

(** X9. The folders [getParserPaths] returns are directories of the
    configured list, and a configuration made of exactly these folders
    passes the validation unchanged and without any message. *)
Theorem getParserPaths_result_is_stable (w : World) :
  exists folders w',
    getParserPaths w = (Return folders, w')
    /\ (forall folder, In folder folders ->
          In folder (parserFolders w) /\ fileSystem w folder = Some Directory)
    /\ getParserPaths (withParserFolders folders w)
       = (Return folders, withParserFolders folders w).
Proof.
  rewrite getParserPaths_run. eexists _, _. split; [reflexivity|]. split.
  - intros folder H. apply filter_In in H. destruct H as [Hin Hvalid].
    split; [exact Hin | apply validFolder_directory; exact Hvalid].
  - rewrite getParserPaths_run.
    cbn [withParserFolders fileSystem parserFolders].
    rewrite filter_idempotent, filter_negb_filter. cbn [map].
    rewrite addEvents_nil. reflexivity.
Qed.

(** X10. [configure] does nothing at all when it is called without an event
    or with an event that does not affect the setting
    [binary-file-viewer.parserFolders]; otherwise it validates the folders,
    showing the messages for the ones it drops, and then calls
    [ParserSelect.init] once, with exactly the folders that passed. *)
Theorem configure_reinitialises_on_folder_change (event : option (jsstring -> bool))
  (w : World) :
  let affected :=
    match event with
    | Some affectsConfiguration =>
        affectsConfiguration (js "binary-file-viewer.parserFolders")
    | None => false
    end in
  let valid := filter (validFolder (fileSystem w)) (parserFolders w) in
  let dropped := filter (fun p => negb (validFolder (fileSystem w) p)) (parserFolders w) in
  (affected = false -> configure event w = (Return tt, w))
  /\ (affected = true ->
      exists r w',
        configure event w = (r, w')
        /\ trace w'
           = trace w
             ++ map (fun p => ShowErrorMessage (folderErrorMessage (fileSystem w) p)) dropped
             ++ [ParserSelectInit valid]
        /\ fileSystem w' = fileSystem w
        /\ parserFolders w' = parserFolders w).
Proof.
  cbv zeta. destruct event as [affectsConfiguration|]; cbn [configure].
  - destruct (affectsConfiguration (js "binary-file-viewer.parserFolders")).
    + split; [discriminate|]. intros _.
      unfold bind. rewrite getParserPaths_run.
      unfold parserSelectInit, callParserSelect, record, addEvents.
      cbn [parserSelect fileSystem parserFolders trace].
      destruct (ps_init _ _) as [r st]. eexists r, _. split; [reflexivity|].
      cbn [trace fileSystem parserFolders]. rewrite <- app_assoc. repeat split.
    + split; [reflexivity | discriminate].
  - split; [reflexivity | discriminate].
Qed.

End FolderFacts.

Lemma getParserPaths_rejects_symbolic_links_witness :
  In (js "/link") (parserFolders sampleWorld)
  /\ fileSystem sampleWorld (js "/link") = Some (SymbolicLink (js "/parsers"))
  /\ (exists folders w',
        @getParserPaths emptyCatalog sampleWorld = (Return folders, w')
        /\ ~ In (js "/link") folders
        /\ In (ShowErrorMessage (js "Settings: The path '/link' is not a directory."))
             (trace w'))
  /\ In (js "/link2") (parserFolders chainWorld)
  /\ fileSystem chainWorld (js "/link2") = Some (SymbolicLink (js "/link"))
  /\ LinkChain (fileSystem chainWorld) (js "/link2") 2 (js "/parsers")
  /\ (exists folders w',
        @getParserPaths emptyCatalog chainWorld = (Return folders, w')
        /\ ~ In (js "/link2") folders
        /\ In (ShowErrorMessage (js "Settings: The path '/link2' is not a directory."))
             (trace w')).
Proof.
  assert (H1 : In (js "/link") (parserFolders sampleWorld))
    by (cbn; right; right; right; left; reflexivity).
  assert (H2 : fileSystem sampleWorld (js "/link") = Some (SymbolicLink (js "/parsers")))
    by reflexivity.
  assert (H3 : In (js "/link2") (parserFolders chainWorld))
    by (cbn; left; reflexivity).
  assert (H4 : fileSystem chainWorld (js "/link2") = Some (SymbolicLink (js "/link")))
    by reflexivity.
  assert (H5 : LinkChain (fileSystem chainWorld) (js "/link2") 2 (js "/parsers")).
  { apply chain_link with (target := js "/link"); [reflexivity|].
    apply chain_link with (target := js "/parsers"); [reflexivity|].
    apply chain_end. }
  split; [exact H1|]. split; [exact H2|]. split; [|split; [exact H3|]].
  - destruct (@getParserPaths_rejects_symbolic_links emptyCatalog sampleWorld
                (js "/link") (js "/parsers") H1 H2)
      as (folders & w' & Hrun & Hout & Hmsg & Hdir & _).
    exists folders, w'. split; [exact Hrun|]. split; [exact Hout|].
    rewrite (Hdir eq_refl) in Hmsg. exact Hmsg.
  - split; [exact H4|]. split; [exact H5|].
    destruct (@getParserPaths_rejects_symbolic_links emptyCatalog chainWorld
                (js "/link2") (js "/link") H3 H4)
      as (folders & w' & Hrun & Hout & Hmsg & _ & _ & Hchain & _).
    exists folders, w'. split; [exact Hrun|]. split; [exact Hout|].
    rewrite (Hchain 2%nat (js "/parsers") Directory H5) in Hmsg.
    + exact Hmsg.
    + unfold MAX_SYMLINK_HOPS. lia.
    + reflexivity.
    + intros t Ht. discriminate Ht.
Defined.

Lemma configure_reinitialises_on_folder_change_witness :
  let event := Some (fun key => jsstring_eqb key (js "binary-file-viewer.parserFolders")) in
  exists r w',
    @configure emptyCatalog event sampleWorld = (r, w')
    /\ trace w'
       = [ShowErrorMessage (js "Settings: The path '/missing' does not exist.");
          ShowErrorMessage (js "Settings: The path '/parsers/wav.js' is not a directory.");
          ShowErrorMessage (js "Settings: The path '/link' is not a directory.");
          ParserSelectInit [js "/parsers"]].
Proof.
  cbv zeta.
  destruct (@configure_reinitialises_on_folder_change emptyCatalog
              (Some (fun key => jsstring_eqb key (js "binary-file-viewer.parserFolders")))
              sampleWorld) as [_ Hyes].
  destruct (Hyes eq_refl) as (r & w' & Hrun & Htrace & _).
  exists r, w'. split; [exact Hrun | exact Htrace].
Defined.

(** ** editorprovider.ts: the messages of the webview *)


Section MessageHandlerFacts.
Context {PSM : ParserSelectModule}.

(** X12. On the message [ready] the handler reads the document's file,
    following symbolic links, and posts one [setData] message that carries
    the source text of the document's parser and exactly the bytes of the
    file. *)
Theorem ready_posts_parser_and_file (doc : EditorDocument) (message : Message)
  (w : World) (data : list byte) :
  command message = js "ready" ->
  statFollow (fileSystem w) MAX_SYMLINK_HOPS (fsPath (uri doc)) = Some (RegularFile data) ->
  onDidReceiveMessage doc message w
  = (Return tt, addEvents [PostMessage (js "setData") (contents (parser doc)) data] w).
Proof.
  intros Hcmd Hfile. unfold onDidReceiveMessage. rewrite Hcmd.
  change (jsstring_eqb (js "ready") (js "ready")) with true. cbv iota.
  unfold bind, readFileSync. rewrite Hfile. reflexivity.
Qed.

(** X13. When the document's file cannot be read (it is missing, a
    directory, or behind a broken link), the handler of [ready] throws out
    of the callback: nothing is posted to the webview and no diagnostic is
    added. *)
Theorem ready_unreadable_file_throws (doc : EditorDocument) (message : Message)
  (w : World) :
  command message = js "ready" ->
  (forall data, statFollow (fileSystem w) MAX_SYMLINK_HOPS (fsPath (uri doc))
                <> Some (RegularFile data)) ->
  exists e, onDidReceiveMessage doc message w = (Throw e, w).
Proof.
  intros Hcmd Hfile. unfold onDidReceiveMessage. rewrite Hcmd.
  change (jsstring_eqb (js "ready") (js "ready")) with true. cbv iota.
  unfold bind, readFileSync.
  destruct (statFollow (fileSystem w) MAX_SYMLINK_HOPS (fsPath (uri doc)))
    as [[data| |target]|] eqn:E.
  - exfalso. exact (Hfile data eq_refl).
  - eexists. reflexivity.
  - eexists. reflexivity.
  - eexists. reflexivity.
Qed.


End MessageHandlerFacts.

Lemma ready_posts_parser_and_file_witness :
  let doc := {| uri := {| fsPath := js "/parsers/wav.js" |}; parser := sampleParser |} in
  let message := {| command := js "ready"; text := [] |} in
  command message = js "ready"
  /\ statFollow (fileSystem sampleWorld) MAX_SYMLINK_HOPS (fsPath (uri doc))
     = Some (RegularFile [])
  /\ @onDidReceiveMessage emptyCatalog doc message sampleWorld
     = (Return tt,
        addEvents [PostMessage (js "setData") (js "addStandardHeader();") []] sampleWorld).
Proof.
  cbv zeta. split; [reflexivity|]. split; [reflexivity|].
  exact (@ready_posts_parser_and_file emptyCatalog
           {| uri := {| fsPath := js "/parsers/wav.js" |}; parser := sampleParser |}
           {| command := js "ready"; text := [] |} sampleWorld [] eq_refl eq_refl).
Defined.

Lemma ready_unreadable_file_throws_witness :
  let message := {| command := js "ready"; text := [] |} in
  command message = js "ready"
  /\ statFollow (fileSystem sampleWorld) MAX_SYMLINK_HOPS (fsPath (uri sampleDocument))
     = None
  /\ exists e, @onDidReceiveMessage emptyCatalog sampleDocument message sampleWorld
               = (Throw e, sampleWorld).
Proof.
  cbv zeta. split; [reflexivity|]. split; [reflexivity|].
  apply (@ready_unreadable_file_throws emptyCatalog sampleDocument
           {| command := js "ready"; text := [] |} sampleWorld eq_refl).
  intros data H. vm_compute in H. discriminate H.
Defined.


(** ** editorprovider.ts: what [openCustomDocument] logs *)

Section OpenCustomDocumentLog.
Context {PSM : ParserSelectModule} {PM : PathModule}.

(** X15. [openCustomDocument] calls the parser selection exactly once,
    with the file path as second argument, and calls [console.log] exactly
    when the selection throws, with the thrown value; the state the
    selection left behind is kept in either case. *)
Theorem openCustomDocument_logs_what_is_thrown (target : Uri) (w : World) :
  let call := SelectParserFile (fileExtOf (fsPath target)) (Some (fsPath target)) in
  exists result w',
    openCustomDocument target w = (Return result, w')
    /\ fileSystem w' = fileSystem w
    /\ parserFolders w' = parserFolders w
    /\ match ps_selectParserFile (fileExtOf (fsPath target)) (Some (fsPath target))
               (parserSelect w) with
       | (Return _, st) => parserSelect w' = st /\ trace w' = trace w ++ [call]
       | (Throw e, st) =>
           parserSelect w' = st
           /\ trace w' = trace w ++ [call; ConsoleLog (LogError e)]
       end.
Proof.
  rewrite openCustomDocument_run. cbv zeta.
  destruct (ps_selectParserFile _ _ _) as [[[p|]|e] st];
    eexists _, _; (split; [reflexivity|]); cbn [fileSystem parserFolders parserSelect trace];
    repeat split.
  rewrite <- app_assoc. reflexivity.
Qed.

End OpenCustomDocumentLog.

(** ** hoverprovider.ts: the word under the cursor *)

Lemma matchWordsToEnd_Some (s m : jsstring) :
  HoverProvider.matchWordsToEnd s = Some m ->
  m = s /\ forallb HoverProvider.isWordChar s = true.
Proof.
  revert m. induction s as [|c r IH]; intros m; cbn [HoverProvider.matchWordsToEnd forallb].
  - intros [= <-]. split; reflexivity.
  - destruct (HoverProvider.isWordChar c); [|discriminate].
    destruct (HoverProvider.matchWordsToEnd r) as [m'|]; [|discriminate].
    intros [= <-]. destruct (IH m' eq_refl) as [-> ->]. split; reflexivity.
Qed.

Lemma matchWordsToEnd_words (s : jsstring) :
  forallb HoverProvider.isWordChar s = true -> HoverProvider.matchWordsToEnd s = Some s.
Proof.
  induction s as [|c r IH]; cbn [HoverProvider.matchWordsToEnd forallb]; [reflexivity|].
  intros H. apply andb_true_iff in H. destruct H as [Hc Hr].
  rewrite Hc, (IH Hr). reflexivity.
Qed.

Lemma matchWordsToEnd_blocked (front word : jsstring) (c : N) :
  HoverProvider.isWordChar c = false ->
  HoverProvider.matchWordsToEnd (front ++ c :: word) = None.
Proof.
  intros Hc. destruct (HoverProvider.matchWordsToEnd (front ++ c :: word)) as [m|] eqn:E;
    [|reflexivity].
  apply matchWordsToEnd_Some in E. destruct E as [_ Hall].
  rewrite forallb_app in Hall. apply andb_true_iff in Hall. destruct Hall as [_ Hall].
  cbn [forallb] in Hall. rewrite Hc in Hall. discriminate.
Qed.

Lemma execWordsAtEnd_unfold (s : jsstring) :
  HoverProvider.execWordsAtEnd s
  = match HoverProvider.matchWordsToEnd s with
    | Some m => m
    | None =>
        match s with
        | [] => []
        | _ :: r => HoverProvider.execWordsAtEnd r
        end
    end.
Proof. destruct s; reflexivity. Qed.

Lemma execWordsAtEnd_suffix (before word : jsstring) :
  EndsOutsideWord before ->
  forallb HoverProvider.isWordChar word = true ->
  HoverProvider.execWordsAtEnd (before ++ word) = word.
Proof.
  intros Hbefore Hword.
  assert (Hbase : HoverProvider.execWordsAtEnd word = word).
  { rewrite execWordsAtEnd_unfold, matchWordsToEnd_words by exact Hword. reflexivity. }
  destruct Hbefore as [->|(front & c & -> & Hc)]; [exact Hbase|].
  rewrite <- app_assoc. cbn [app].
  induction front as [|x front IH]; rewrite execWordsAtEnd_unfold.
  - rewrite (matchWordsToEnd_blocked [] word c Hc). cbn [app]. exact Hbase.
  - rewrite (matchWordsToEnd_blocked (x :: front) word c Hc). cbn [app]. exact IH.
Qed.

Lemma forallb_firstn (A : Type) (f : A -> bool) (k : nat) (l : list A) :
  forallb f l = true -> forallb f (firstn k l) = true.
Proof.
  revert k. induction l as [|x l IH]; intros [|k] H; cbn [firstn forallb] in *;
    try reflexivity.
  apply andb_true_iff in H. destruct H as [-> H]. cbn [andb]. apply IH. exact H.
Qed.

Lemma forallb_skipn (A : Type) (f : A -> bool) (k : nat) (l : list A) :
  forallb f l = true -> forallb f (skipn k l) = true.
Proof.
  revert k. induction l as [|x l IH]; intros [|k] H; cbn [skipn forallb] in *;
    try reflexivity; try exact H.
  apply andb_true_iff in H. destruct H as [_ H]. apply IH. exact H.
Qed.

Lemma hoverLabel_word (before word after : jsstring) (k lineNumber : nat) :
  EndsOutsideWord before ->
  forallb HoverProvider.isWordChar word = true ->
  StartsOutsideWord after ->
  (k <= length word)%nat ->
  HoverProvider.hoverLabel (before ++ word ++ after)
    {| HoverProvider.line := lineNumber; HoverProvider.character := length before + k |}
  = word.
Proof.
  intros Hbefore Hword Hafter Hk.
  unfold HoverProvider.hoverLabel, HoverProvider.substringTo, HoverProvider.substringFrom,
    HoverProvider.execWordsAtStart.
  cbn [HoverProvider.character].
  rewrite firstn_app_2, skipn_app.
  rewrite skipn_all2 by lia. cbn [app].
  replace (length before + k - length before)%nat with k by lia.
  rewrite firstn_app, skipn_app.
  replace (k - length word)%nat with 0%nat by lia. cbn [firstn skipn].
  rewrite app_nil_r.
  rewrite (execWordsAtEnd_suffix before (firstn k word) Hbefore)
    by (apply forallb_firstn; exact Hword).
  rewrite (takeWhile_app_stop HoverProvider.isWordChar (skipn k word) after).
  - apply firstn_skipn.
  - apply Forall_forall. intros c Hc.
    pose proof (forallb_skipn _ HoverProvider.isWordChar k word Hword) as H.
    rewrite forallb_forall in H. exact (H c Hc).
  - exact Hafter.
Qed.

Section HoverFacts.
Context {HH : HoverProvider.HoverHost}.

(** X16. In a parser document, the hover is that of the whole identifier
    the cursor touches: when the line is [before ++ word ++ after], with
    [word] made of word characters and not continued on either side, then
    for every cursor position from the start of the word to its end the
    function documentation is searched for exactly [word], and the hover
    holds the markdown made from what is found ([undefined] when nothing
    is). *)
Theorem provideHover_whole_word (document : HoverProvider.TextDocument)
  (before word after : jsstring) (k lineNumber : nat) :
  let position := {| HoverProvider.line := lineNumber;
                     HoverProvider.character := length before + k |} in
  HoverProvider.isParserDoc (HoverProvider.uri document) = true ->
  HoverProvider.lineAt document position = Return (before ++ word ++ after) ->
  EndsOutsideWord before ->
  forallb HoverProvider.isWordChar word = true ->
  StartsOutsideWord after ->
  (k <= length word)%nat ->
  HoverProvider.provideHover document position
  = Return (option_map
              (fun funcDoc =>
                 {| HoverProvider.contents := HoverProvider.createHoverMarkdown funcDoc |})
              (HoverProvider.search word)).
Proof.
  cbv zeta. intros Hdoc Hline Hbefore Hword Hafter Hk.
  unfold HoverProvider.provideHover. rewrite Hdoc, Hline. cbn [negb].
  rewrite (hoverLabel_word before word after k lineNumber Hbefore Hword Hafter Hk).
  destruct (HoverProvider.search word); reflexivity.
Qed.

End HoverFacts.

Lemma provideHover_whole_word_witness :
  let position := {| HoverProvider.line := 0; HoverProvider.character := length (js "  ") + 2 |} in
  @HoverProvider.isParserDoc sampleHoverHost (HoverProvider.uri sampleTextDocument) = true
  /\ HoverProvider.lineAt sampleTextDocument position
     = Return (js "  " ++ js "read" ++ js "(4);")
  /\ @HoverProvider.provideHover sampleHoverHost sampleTextDocument position
     = Return (Some {| HoverProvider.contents :=
                         {| HoverProvider.value :=
                              js "read(size)" ++ [LF; LF] ++ js "*Reads bytes.*";
                            HoverProvider.supportThemeIcons := false |} |}).
Proof.
  cbv zeta. split; [reflexivity|]. split; [reflexivity|].
  rewrite (@provideHover_whole_word sampleHoverHost sampleTextDocument
             (js "  ") (js "read") (js "(4);") 2 0).
  - reflexivity.
  - reflexivity.
  - reflexivity.
  - right. exists (js " "), 32%N. split; reflexivity.
  - reflexivity.
  - reflexivity.
  - cbn. lia.
Defined.

(** ** editorprovider.ts: the html of the webview *)

Lemma startsWith_prefix (p s : jsstring) :
  StringReplace.startsWith p s = true <-> exists t, s = p ++ t.
Proof.
  revert s. induction p as [|x p IH]; intros s; cbn [StringReplace.startsWith].
  - split; [intros _; exists s; reflexivity | reflexivity].
  - destruct s as [|y s].
    + split; [discriminate | intros (t & H); discriminate H].
    + rewrite andb_true_iff, N.eqb_eq, IH. split.
      * intros (-> & t & ->). exists t. reflexivity.
      * intros (t & [= -> ->]). split; [reflexivity | exists t; reflexivity].
Qed.

Lemma startsWith_long (p x y : jsstring) :
  (length p <= length x)%nat ->
  StringReplace.startsWith p (x ++ y) = StringReplace.startsWith p x.
Proof.
  revert x. induction p as [|c p IH]; intros x Hlen; [reflexivity|].
  destruct x as [|d x]; cbn [length] in Hlen; [lia|].
  cbn [app StringReplace.startsWith]. rewrite IH by lia. reflexivity.
Qed.

Lemma firstOccurrence_unfold (p s : jsstring) :
  StringReplace.firstOccurrence p s
  = if StringReplace.startsWith p s then Some ([], skipn (length p) s)
    else match s with
         | [] => None
         | c :: r =>
             match StringReplace.firstOccurrence p r with
             | Some (before, after) => Some (c :: before, after)
             | None => None
             end
         end.
Proof. destruct s; reflexivity. Qed.

Lemma firstOccurrence_None (p s : jsstring) :
  StringReplace.firstOccurrence p s = None <-> ~ Contains p s.
Proof.
  induction s as [|c r IH]; rewrite firstOccurrence_unfold.
  - destruct (StringReplace.startsWith p []) eqn:E.
    + split; [discriminate|]. intros H. exfalso. apply H.
      apply startsWith_prefix in E. destruct E as (t & E). exists [], t. exact E.
    + split; [|reflexivity]. intros _ (before & after & H).
      destruct before; [|discriminate H]. cbn [app] in H.
      assert (StringReplace.startsWith p [] = true)
        by (apply startsWith_prefix; exists after; exact H).
      congruence.
  - destruct (StringReplace.startsWith p (c :: r)) eqn:E.
    + split; [discriminate|]. intros H. exfalso. apply H.
      apply startsWith_prefix in E. destruct E as (t & E). exists [], t. exact E.
    + destruct (StringReplace.firstOccurrence p r) as [[before after]|] eqn:Er.
      * split; [discriminate|]. intros H. exfalso.
        assert (Hr : ~ Contains p r).
        { intros (b & a & ->). apply H. exists (c :: b), a. reflexivity. }
        apply IH in Hr. discriminate Hr.
      * split; [|reflexivity]. intros _ (before & after & H).
        destruct before as [|c' before]; cbn [app] in H.
        -- assert (StringReplace.startsWith p (c :: r) = true)
             by (apply startsWith_prefix; exists after; exact H).
           congruence.
        -- injection H as _ H. apply (proj1 IH eq_refl). exists before, after. exact H.
Qed.

Lemma firstOccurrence_first (p before after : jsstring) :
  ~ Contains p (before ++ removelast p) ->
  StringReplace.firstOccurrence p (before ++ p ++ after) = Some (before, after).
Proof.
  intros Hfirst. induction before as [|c before IH]; rewrite firstOccurrence_unfold.
  - cbn [app].
    assert (H : StringReplace.startsWith p (p ++ after) = true)
      by (apply startsWith_prefix; exists after; reflexivity).
    rewrite H, skipn_app, skipn_all, Nat.sub_diag. reflexivity.
  - assert (Hp : p <> []).
    { intros ->. apply Hfirst. exists [], (c :: before ++ []). reflexivity. }
    assert (Hno : StringReplace.startsWith p ((c :: before) ++ p ++ after) = false).
    { destruct (StringReplace.startsWith p ((c :: before) ++ p ++ after)) eqn:E;
        [|reflexivity].
      exfalso. apply Hfirst.
      rewrite (app_removelast_last 0%N Hp) in E at 2.
      rewrite <- app_assoc in E. rewrite app_assoc in E.
      rewrite startsWith_long in E.
      - apply startsWith_prefix in E. destruct E as (t & E). exists [], t. exact E.
      - rewrite length_app. cbn [length].
        pose proof (app_removelast_last 0%N Hp) as Hsplit.
        apply (f_equal (@length N)) in Hsplit. rewrite length_app in Hsplit.
        cbn [length] in Hsplit. lia. }
    rewrite Hno. cbn [app]. cbn [app] in IH. rewrite IH; [reflexivity|].
    intros (b & a & H). apply Hfirst. exists (c :: b), a. cbn [app]. f_equal. exact H.
Qed.

Lemma getSubstitution_plain (matched before after replacement : jsstring) :
  ~ In StringReplace.DOLLAR replacement ->
  StringReplace.getSubstitution matched before after replacement = replacement.
Proof.
  induction replacement as [|c r IH]; intros Hno; cbn [StringReplace.getSubstitution];
    [reflexivity|].
  destruct (N.eqb_spec c StringReplace.DOLLAR) as [->|_];
    [exfalso; apply Hno; left; reflexivity|].
  rewrite IH by (intros H; apply Hno; right; exact H). reflexivity.
Qed.

Section EditorPanelFacts.
Context {PSM : ParserSelectModule} {PM : PathModule} {EH : EditorPanel.EditorHost}.

(** X17. [resolveCustomEditor] never throws and changes nothing outside
    the webview.  Whether or not the html can be built, it leaves scripts
    enabled and the document's message handler installed after the ones
    that were there; the html is replaced only when [getMainHtml] returns,
    and when that throws the html stays as it was and the thrown value is
    given to [console.error]. *)
Theorem resolveCustomEditor_never_throws (document : EditorDocument)
  (webviewPanel : EditorPanel.Webview) (w : World) :
  exists resolved,
    EditorPanel.resolveCustomEditor document webviewPanel w = (Return resolved, w)
    /\ EditorPanel.enableScripts (EditorPanel.options (EditorPanel.webview resolved)) = true
    /\ EditorPanel.listeners (EditorPanel.webview resolved)
       = EditorPanel.listeners webviewPanel ++ [document]
    /\ match EditorPanel.getMainHtml w with
       | (Return mainHtml, _) =>
           EditorPanel.html (EditorPanel.webview resolved) = mainHtml
           /\ EditorPanel.consoleError resolved = None
       | (Throw e, _) =>
           EditorPanel.html (EditorPanel.webview resolved) = EditorPanel.html webviewPanel
           /\ EditorPanel.consoleError resolved = Some e
       end.
Proof.
  assert (Hworld : forall r w', EditorPanel.getMainHtml w = (r, w') -> w' = w).
  { unfold EditorPanel.getMainHtml. intros r w'.
    destruct EditorPanel.extensionPath as [extPath|]; [|unfold throw; congruence].
    unfold bind, readFileSync, ret.
    destruct (statFollow _ _ _) as [[data| |target]|]; congruence. }
  unfold EditorPanel.resolveCustomEditor, tryCatch, bind.
  destruct (EditorPanel.getMainHtml w) as [[mainHtml|e] w'] eqn:E;
    rewrite (Hworld _ _ eq_refl); eexists; (split; [reflexivity|]); repeat split.
Qed.

(** X18. When the extension is installed and its [html/main.html] can be
    read, [getMainHtml] returns the text of that file with the first
    [${vscodeResPath}] replaced by the webview URI of the extension folder
    (a URI without a dollar sign) and everything else unchanged, later
    occurrences of the placeholder included; a text without the placeholder
    is returned as it is. *)
Theorem getMainHtml_replaces_first_placeholder (w : World) (extPath : jsstring)
  (buffer : list byte) :
  EditorPanel.extensionPath = Some extPath ->
  statFollow (fileSystem w) MAX_SYMLINK_HOPS
    (EditorPanel.join extPath (js "html/main.html")) = Some (RegularFile buffer) ->
  ~ In StringReplace.DOLLAR (EditorPanel.asWebviewUri extPath) ->
  exists mainHtml,
    EditorPanel.getMainHtml w = (Return mainHtml, w)
    /\ (~ Contains EditorPanel.PLACEHOLDER (EditorPanel.bufferToString buffer) ->
        mainHtml = EditorPanel.bufferToString buffer)
    /\ (forall before after,
          EditorPanel.bufferToString buffer = before ++ EditorPanel.PLACEHOLDER ++ after ->
          ~ Contains EditorPanel.PLACEHOLDER
              (before ++ removelast EditorPanel.PLACEHOLDER) ->
          mainHtml = before ++ EditorPanel.asWebviewUri extPath ++ after).
Proof.
  intros Hext Hfile Hplain. unfold EditorPanel.getMainHtml. rewrite Hext.
  unfold bind, readFileSync, ret. rewrite Hfile.
  eexists. split; [reflexivity|]. split.
  - intros Hno. unfold StringReplace.replace.
    rewrite (proj2 (firstOccurrence_None _ _) Hno). reflexivity.
  - intros before after Hsplit Hfirst. unfold StringReplace.replace.
    rewrite Hsplit, (firstOccurrence_first _ before after Hfirst).
    rewrite getSubstitution_plain by exact Hplain. reflexivity.
Qed.

End EditorPanelFacts.

Lemma getMainHtml_replaces_first_placeholder_witness :
  @EditorPanel.extensionPath sampleEditorHost = Some (js "/ext")
  /\ statFollow (fileSystem sampleEditorWorld) MAX_SYMLINK_HOPS
       (@EditorPanel.join sampleEditorHost (js "/ext") (js "html/main.html"))
     = Some (RegularFile sampleMainHtml)
  /\ @EditorPanel.getMainHtml emptyCatalog sampleEditorHost sampleEditorWorld
     = (Return (js "<base href='https://file+.vscode-resource.vscode-cdn.net/ext/'><p>${vscodeResPath}</p>"),
        sampleEditorWorld).
Proof.
  split; [reflexivity|]. split; [reflexivity|].
  destruct (@getMainHtml_replaces_first_placeholder emptyCatalog sampleEditorHost
              sampleEditorWorld (js "/ext") sampleMainHtml eq_refl eq_refl)
    as (mainHtml & Hrun & _ & Hfirst).
  - intros Hin. vm_compute in Hin.
    repeat (destruct Hin as [Hin|Hin]; [discriminate Hin|]). exact Hin.
  - rewrite Hrun. f_equal. f_equal.
    apply (Hfirst (js "<base href='") (js "/'><p>${vscodeResPath}</p>")).
    + reflexivity.
    + apply firstOccurrence_None. reflexivity.
Defined.

(** ** extension.ts: how far the accumulation can be from the exact value *)

Lemma roundNearestEven_error (x e : Z) :
  0 <= x -> e = Z.log2 x - 52 -> 0 < e ->
  0 <= roundNearestEven x /\ Z.abs (roundNearestEven x - x) <= 2 ^ (e - 1).
Proof.
  intros Hx He Hpos. unfold roundNearestEven. rewrite <- He.
  destruct (Z.leb_spec e 0) as [|_]; [lia|]. cbv zeta.
  assert (Hpow : 2 ^ e = 2 * 2 ^ (e - 1)).
  { replace e with (1 + (e - 1)) at 1 by lia. rewrite Z.pow_add_r by lia. reflexivity. }
  assert (Hhalf : 0 < 2 ^ (e - 1)) by (apply Z.pow_pos_nonneg; lia).
  pose proof (Z.div_mod x (2 ^ e) ltac:(lia)) as Hdm.
  pose proof (Z.mod_pos_bound x (2 ^ e) ltac:(lia)) as Hr.
  assert (Hq : 0 <= x / 2 ^ e) by (apply Z.div_pos; lia).
  set (q := x / 2 ^ e) in *. set (r := x mod 2 ^ e) in *. set (h := 2 ^ (e - 1)) in *.
  destruct ((r <? h) || ((r =? h) && Z.even q)) eqn:Ecase.
  - assert (r <= h).
    { apply orb_true_iff in Ecase. destruct Ecase as [E|E].
      - apply Z.ltb_lt in E. lia.
      - apply andb_true_iff in E. destruct E as [E _]. apply Z.eqb_eq in E. lia. }
    split; [nia|]. apply Z.abs_le. nia.
  - assert (h <= r).
    { apply orb_false_iff in Ecase. destruct Ecase as [E _]. apply Z.ltb_ge in E. exact E. }
    split; [nia|]. apply Z.abs_le. nia.
Qed.

(** Below [2^65] a rounding moves an integer by [2^11] at most. *)
Lemma fromZ_error (x : Z) :
  0 <= x < 2 ^ 65 ->
  exists v, fromZ x = Num v /\ 0 <= v /\ Z.abs (v - x) <= 2 ^ 11.
Proof.
  intros [H0 H65].
  assert (Hround : 0 <= roundNearestEven x /\ Z.abs (roundNearestEven x - x) <= 2 ^ 11).
  { destruct (Z.le_gt_cases (Z.log2 x - 52) 0) as [Hsmall|Hbig].
    - unfold roundNearestEven.
      destruct (Z.leb_spec (Z.log2 x - 52) 0); [|lia].
      replace (x - x) with 0 by lia. cbn. lia.
    - assert (Hx : 0 < x).
      { destruct (Z.eq_dec x 0) as [->|]; [cbn in Hbig; lia | lia]. }
      assert (Hlog : Z.log2 x < 65) by (apply Z.log2_lt_pow2; lia).
      destruct (roundNearestEven_error x (Z.log2 x - 52) H0 eq_refl Hbig) as [Hnn Herr].
      split; [exact Hnn|].
      assert (2 ^ (Z.log2 x - 52 - 1) <= 2 ^ 11) by (apply Z.pow_le_mono_r; lia).
      lia. }
  destruct Hround as [Hnn Herr].
  exists (roundNearestEven x). unfold fromZ, round53.
  rewrite (Z.abs_eq x) by exact H0.
  assert (Hsgn : Z.sgn x * roundNearestEven x = roundNearestEven x).
  { destruct (Z.eq_dec x 0) as [->|Hne]; [reflexivity|].
    rewrite Z.sgn_pos by lia. lia. }
  rewrite Hsgn. rewrite pow2_1024_gt; [repeat split; assumption|].
  rewrite (Z.abs_eq (roundNearestEven x)) by exact Hnn.
  assert (H11 : 2 ^ 11 < 2 ^ 65) by (apply Z.pow_lt_mono_r; lia).
  assert (H66 : 2 * 2 ^ 65 <= 2 ^ 1023).
  { change (2 * 2 ^ 65) with (2 ^ 66). apply Z.pow_le_mono_r; lia. }
  apply Z.abs_le in Herr. lia.
Qed.

(** A byte times a power of 256 is a JavaScript number. *)
Lemma fromZ_scaled_byte (k c : Z) :
  0 <= k < 1000 -> 0 <= c <= 255 -> fromZ (2 ^ k * c) = Num (2 ^ k * c).
Proof.
  intros Hk Hc.
  destruct (Z.eq_dec c 0) as [->|Hne]; [rewrite Z.mul_0_r; reflexivity|].
  assert (Hpk : 0 < 2 ^ k) by (apply Z.pow_pos_nonneg; lia).
  assert (Hx : 0 < 2 ^ k * c) by nia.
  assert (Hlogc : Z.log2 c < 8) by (apply Z.log2_lt_pow2; [lia | cbn; lia]).
  assert (Hlogc0 : 0 <= Z.log2 c) by apply Z.log2_nonneg.
  assert (Hlog : Z.log2 (2 ^ k * c) = k + Z.log2 c).
  { rewrite Z.mul_comm. rewrite Z.log2_mul_pow2 by lia. lia. }
  assert (Hround : roundNearestEven (2 ^ k * c) = 2 ^ k * c).
  { unfold roundNearestEven. rewrite Hlog.
    destruct (Z.leb_spec (k + Z.log2 c - 52) 0) as [|He]; [reflexivity|]. cbv zeta.
    set (e := k + Z.log2 c - 52) in *.
    assert (Hsplit : 2 ^ k = 2 ^ (k - e) * 2 ^ e)
      by (rewrite <- Z.pow_add_r by lia; f_equal; lia).
    assert (Hpe : 0 < 2 ^ e) by (apply Z.pow_pos_nonneg; lia).
    assert (Hhalf : 0 < 2 ^ (e - 1)) by (apply Z.pow_pos_nonneg; lia).
    assert (Hform : 2 ^ k * c = (c * 2 ^ (k - e)) * 2 ^ e) by (rewrite Hsplit; ring).
    rewrite Hform. rewrite Z.mod_mul by lia. rewrite Z.div_mul by lia.
    destruct (Z.ltb_spec 0 (2 ^ (e - 1))); [|lia]. reflexivity. }
  unfold fromZ, round53. rewrite (Z.abs_eq (2 ^ k * c)) by lia. rewrite Hround.
  rewrite Z.sgn_pos by lia. rewrite Z.mul_1_l.
  rewrite pow2_1024_gt; [reflexivity|].
  rewrite (Z.abs_eq (2 ^ k * c)) by lia.
  assert (2 ^ k * c < 2 ^ k * 2 ^ 8) by (change (2 ^ 8) with 256; nia).
  assert (2 ^ k * 2 ^ 8 <= 2 ^ 1023)
    by (rewrite <- Z.pow_add_r by lia; apply Z.pow_le_mono_r; lia).
  lia.
Qed.

Lemma accumulateLoop_error (pre post rest done : list byte) (v : Z) :
  let i := length done in
  let F := 2 ^ (8 * Z.of_nat i) in
  0 <= v ->
  v + F * complementSum rest + Z.of_nat (length rest) * 2 ^ 11 < 2 ^ 65 ->
  (i + length rest <= 100)%nat ->
  exists v',
    accumulateLoop number add sub mul Num elemNumber
      (pre ++ (done ++ rest) ++ post) (length pre) (length rest) i (Num v) (Num F)
    = (Num v', Num (2 ^ (8 * Z.of_nat (i + length rest))))
    /\ 0 <= v'
    /\ Z.abs (v' - (v + F * complementSum rest)) <= Z.of_nat (length rest) * 2 ^ 11.
Proof.
  revert done v. induction rest as [|b rest IH]; intros done v i F Hv Hsum Hlen.
  - cbn [accumulateLoop length complementSum]. subst F i. exists v.
    rewrite Nat.add_0_r. split; [reflexivity|]. split; [exact Hv|].
    replace (v - (v + 2 ^ (8 * Z.of_nat (length done)) * 0)) with 0 by lia. cbn. lia.
  - cbn [accumulateLoop length]. cbn [length] in Hlen, Hsum.
    assert (Hnth : nth_error (pre ++ (done ++ b :: rest) ++ post) (length pre + i) = Some b).
    { rewrite nth_error_app2 by lia.
      replace (length pre + i - length pre)%nat with i by lia.
      rewrite nth_error_app1 by (rewrite length_app; cbn [length]; lia).
      subst i. rewrite nth_error_app2 by lia.
      rewrite Nat.sub_diag. reflexivity. }
    rewrite Hnth, sub_255_byte.
    pose proof (byteValue_range b) as Hb.
    pose proof (complementSum_nonneg rest) as Hrest.
    assert (HF : 0 < F) by (subst F; apply Z.pow_pos_nonneg; lia).
    cbn [complementSum] in Hsum |- *.
    assert (Hterm : 0 <= F * (255 - byteValue b)) by nia.
    assert (Htail : 0 <= F * (256 * complementSum rest)) by nia.
    assert (Hdist : F * (255 - byteValue b + 256 * complementSum rest)
                    = F * (255 - byteValue b) + F * (256 * complementSum rest)) by ring.
    assert (H11 : 0 < 2 ^ 11) by (cbn; lia).
    assert (Hprod : fromZ (F * (255 - byteValue b)) = Num (F * (255 - byteValue b)))
      by (unfold F; apply fromZ_scaled_byte; unfold i; lia).
    cbn [mul]. rewrite Hprod. cbn [add].
    destruct (fromZ_error (v + F * (255 - byteValue b))) as (v1 & Hv1 & Hv1nn & Hv1err);
      [nia|].
    rewrite Hv1.
    assert (HF' : F * 256 = 2 ^ (8 * Z.of_nat (length (done ++ [b])))).
    { subst F i. rewrite length_app. cbn [length].
      replace (8 * Z.of_nat (length done + 1)) with (8 * Z.of_nat (length done) + 8) by lia.
      rewrite Z.pow_add_r by lia. reflexivity. }
    rewrite HF'. rewrite fromZ_pow2
      by (rewrite length_app; cbn [length]; subst i; lia).
    specialize (IH (done ++ [b]) v1). cbv zeta in IH.
    replace (S i) with (length (done ++ [b])) by (rewrite length_app; cbn [length]; subst i; lia).
    replace (done ++ b :: rest) with ((done ++ [b]) ++ rest)
      by (rewrite <- app_assoc; reflexivity).
    apply Z.abs_le in Hv1err.
    destruct IH as (v' & Hrun & Hnn & Herr).
    + exact Hv1nn.
    + rewrite <- HF'. nia.
    + rewrite length_app. cbn [length]. subst i. lia.
    + exists v'. rewrite Hrun. split.
      * f_equal. f_equal. f_equal. rewrite length_app. cbn [length]. subst i. lia.
      * split; [exact Hnn|]. rewrite <- HF' in Herr.
        apply Z.abs_le in Herr. apply Z.abs_le. nia.
Qed.

(** X3. For every buffer and every width from 1 to 8 whose window lies
    in the buffer, the accumulation yields a finite, non-negative number,
    never NaN or an infinity, and the roundings move it away from the exact
    magnitude [2^(8n)] minus the unsigned value by [(n + 1) * 2^11] at
    most. *)
Theorem signedMagnitude_near_exact (pre bytes post : list byte) :
  (1 <= length bytes <= 8)%nat ->
  exists z,
    signedMagnitude (pre ++ bytes ++ post) (length pre) (length bytes) = Num z
    /\ 0 <= z
    /\ Z.abs (z - (2 ^ (8 * Z.of_nat (length bytes)) - unsignedValue bytes))
       <= (Z.of_nat (length bytes) + 1) * 2 ^ 11.
Proof.
  intros Hn. unfold signedMagnitude, accumulateWith.
  pose proof (complementSum_unsignedValue bytes) as Heq.
  pose proof (unsignedValue_range bytes) as HU.
  pose proof (complementSum_nonneg bytes) as Hcs.
  assert (H64 : 2 ^ (8 * Z.of_nat (length bytes)) <= 2 ^ 64)
    by (apply Z.pow_le_mono_r; lia).
  assert (H65 : 2 ^ 65 = 2 * 2 ^ 64) by reflexivity.
  assert (H11 : 2 ^ 11 = 2048) by reflexivity.
  assert (Hbig : 2 ^ 20 <= 2 ^ 64) by (apply Z.pow_le_mono_r; lia).
  change (2 ^ 20) with 1048576 in Hbig.
  destruct (accumulateLoop_error pre post bytes [] 0) as (v' & Hrun & Hnn & Herr).
  - lia.
  - cbn [length]. change (2 ^ (8 * Z.of_nat 0)) with 1. lia.
  - cbn [length]. lia.
  - cbn [length app] in Hrun. cbn [length] in Herr.
    change (2 ^ (8 * Z.of_nat 0)) with 1 in Hrun, Herr.
    rewrite Hrun. cbn [add].
    apply Z.abs_le in Herr.
    destruct (fromZ_error (v' + 1)) as (z & Hz & Hznn & Hzerr); [lia|].
    exists z. split; [exact Hz|]. split; [exact Hznn|].
    apply Z.abs_le in Hzerr. apply Z.abs_le. lia.
Qed.

Lemma signedMagnitude_near_exact_witness :
  let b := [x01; x00; x00; x00; x00; x00; x00; x80] in
  (1 <= length b <= 8)%nat
  /\ exists z,
       signedMagnitude ([] ++ b ++ []) (length (@nil byte)) (length b) = Num z
       /\ 0 <= z
       /\ Z.abs (z - (2 ^ (8 * Z.of_nat (length b)) - unsignedValue b))
          <= (Z.of_nat (length b) + 1) * 2 ^ 11.
Proof.
  cbv zeta.
  assert (H : (1 <= length [x01; x00; x00; x00; x00; x00; x00; x80] <= 8)%nat)
    by (cbn; lia).
  split; [exact H|].
  exact (signedMagnitude_near_exact [] [x01; x00; x00; x00; x00; x00; x00; x80] [] H).
Defined.

Lemma getParserPaths_result_is_stable_witness :
  exists w',
    @getParserPaths emptyCatalog sampleWorld = (Return [js "/parsers"], w')
    /\ fileSystem sampleWorld (js "/parsers") = Some Directory
    /\ @getParserPaths emptyCatalog (withParserFolders [js "/parsers"] sampleWorld)
       = (Return [js "/parsers"], withParserFolders [js "/parsers"] sampleWorld).
Proof.
  destruct (@getParserPaths_result_is_stable emptyCatalog sampleWorld)
    as (folders & w' & Hrun & Hdirs & Hstable).
  assert (Hfolders : folders = [js "/parsers"]).
  { assert (H : @getParserPaths emptyCatalog sampleWorld
                = (Return [js "/parsers"],
                   addEvents
                     [ShowErrorMessage (js "Settings: The path '/missing' does not exist.");
                      ShowErrorMessage
                        (js "Settings: The path '/parsers/wav.js' is not a directory.");
                      ShowErrorMessage (js "Settings: The path '/link' is not a directory.")]
                     sampleWorld)) by reflexivity.
    rewrite H in Hrun. injection Hrun as Hf _. symmetry. exact Hf. }
  subst folders. exists w'. split; [exact Hrun|]. split; [|exact Hstable].
  apply (Hdirs (js "/parsers")). left. reflexivity.
Defined.

(** ** editorprovider.ts: the range of the diagnostic line *)

Lemma roundNearestEven_nonneg (x : Z) : 0 <= x -> 0 <= roundNearestEven x.
Proof.
  intros Hx. destruct (Z.le_gt_cases (Z.log2 x - 52) 0) as [Hsmall|Hbig].
  - unfold roundNearestEven. destruct (Z.leb_spec (Z.log2 x - 52) 0); [exact Hx | lia].
  - exact (proj1 (roundNearestEven_error x (Z.log2 x - 52) Hx eq_refl Hbig)).
Qed.

Lemma fromZ_nonneg (x : Z) :
  0 <= x -> (exists r, fromZ x = Num r /\ 0 <= r) \/ fromZ x = Infinity false.
Proof.
  intros Hx. unfold fromZ, round53. rewrite (Z.abs_eq x) by exact Hx.
  pose proof (roundNearestEven_nonneg x Hx) as Hr.
  assert (Hneg : (x <? 0) = false) by (apply Z.ltb_ge; exact Hx). rewrite Hneg.
  destruct (2 ^ 1024 <=? Z.abs (Z.sgn x * roundNearestEven x)); [right; reflexivity|].
  left. eexists. split; [reflexivity|].
  destruct (Z.eq_dec x 0) as [->|Hne]; [cbn; lia|].
  rewrite Z.sgn_pos by lia. lia.
Qed.

(** X11. Whatever the failure text, the diagnostic line is a finite number
    not below -4, or positive infinity (for a line number too long to be a
    finite number): it is never NaN and never more negative than the
    correction itself. *)
Theorem diagnosticLine_at_least_minus_4 (stacks : list jsstring) :
  (exists z, diagnosticLine stacks = Num z /\ -4 <= z)
  \/ diagnosticLine stacks = Infinity false.
Proof.
  unfold diagnosticLine.
  destruct (regexExec (toStringOrUndefined (nth_error stacks 1))) as [digits|] eqn:E.
  - apply regexExec_sound in E. destruct E as (before & after & _ & Hne & Hall & _).
    rewrite (parseInt_digits digits Hne Hall).
    destruct (fromZ_nonneg (decimalValue digits) (decimalValue_nonneg digits Hall))
      as [(r & -> & Hr) | -> ].
    + cbn [sub neg add]. replace (r + - (4)) with (r - 4) by lia.
      destruct (Z.le_gt_cases 4 r) as [Hbig|Hsmall].
      * destruct (fromZ_nonneg (r - 4) ltac:(lia)) as [(z & -> & Hz) | -> ].
        -- left. exists z. split; [reflexivity | lia].
        -- right. reflexivity.
      * left. exists (r - 4). split; [|lia]. apply fromZ_small_neg.
        assert (2 ^ 3 <= 2 ^ 53) by (apply Z.pow_le_mono_r; lia).
        change (2 ^ 3) with 8 in *. lia.
    + right. reflexivity.
  - left. exists 0. split; [reflexivity | lia].
Qed.
